(** * go-naive-bayes: the tokenizer and the naive Bayes classifier

    A shallow embedding of [tokenizer.go] and [main.go].

    - Go strings are byte strings: [String.string].
    - Go maps are stdpp [gmap]s.  A [for ... range m] loop visits the
      entries of [m] in an order the language leaves unspecified; the loops
      below take the visiting order as an argument, a permutation of
      [map_to_list m].
    - Go [int] is modelled as [Z].  The counters only grow by one per token
      of a memory-resident corpus, so the 64-bit wrap-around is out of reach.
    - Go [float64] is the IEEE 754 binary64 format of [SpecFloat]
      (precision 53, maximal exponent 1024), which computes. *)

From Stdlib Require Import ZArith Ascii String List Bool Lia.
From Stdlib Require Import Floats.SpecFloat.
From stdpp Require Import base option gmap strings list fin_maps.

Local Open Scope string_scope.
Local Open Scope Z_scope.

(** ** float64 *)

Module Float64.

Definition prec : Z := 53.
Definition emax : Z := 1024.

Abbreviation float64 := spec_float.

(** The conversion [float64(n)] of an [int], rounding to nearest even. *)
Definition of_int (n : Z) : float64 := binary_normalize prec emax n 0 false.

Definition mul (x y : float64) : float64 := SFmul prec emax x y.
Definition div (x y : float64) : float64 := SFdiv prec emax x y.

(** [x > y] *)
Definition gt (x y : float64) : bool := SFltb y x.
(** [x == y] *)
Definition feq (x y : float64) : bool := SFeqb x y.

Definition is_nan (x : float64) : bool :=
  match x with S754_nan => true | _ => false end.

Definition is_finite (x : float64) : bool :=
  match x with S754_zero _ | S754_finite _ _ _ => true | _ => false end.

End Float64.

Import Float64.

(** ** tokenizer.go *)

Module Tokenizer.

(** *** Bytes and the [strings] and [regexp] calls *)

Definition byte_in (lo hi : ascii) (c : ascii) : bool :=
  ((nat_of_ascii lo <=? nat_of_ascii c) && (nat_of_ascii c <=? nat_of_ascii hi))%nat.

Definition isUpper (c : ascii) : bool := byte_in "A" "Z" c.
Definition isLower (c : ascii) : bool := byte_in "a" "z" c.
Definition isDigit (c : ascii) : bool := byte_in "0" "9" c.

(** A byte below [utf8.RuneSelf] (0x80). *)
Definition isASCIIByte (c : ascii) : bool := (nat_of_ascii c <? 128)%nat.

Fixpoint isASCII (s : string) : bool :=
  match s with
  | EmptyString => true
  | String c r => isASCIIByte c && isASCII r
  end.

(** [c += 'a' - 'A'] on an upper-case byte. *)
Definition lowerByte (c : ascii) : ascii :=
  if isUpper c then ascii_of_nat (nat_of_ascii c + 32) else c.

Fixpoint lowerASCII (s : string) : string :=
  match s with
  | EmptyString => EmptyString
  | String c r => String (lowerByte c) (lowerASCII r)
  end.

(** The character class of the regular expression [[^a-zA-Z 0-9]+] is the
    complement of this set. *)
Definition inClass (c : ascii) : bool :=
  isLower c || isUpper c || Ascii.eqb c " " || isDigit c.

(** [re.ReplaceAllLiteralString(s, "")]: scan left to right; a match
    starts at a byte outside the class, extends over the maximal run of
    such bytes and is replaced by the empty string, so that exactly the
    bytes of the class are copied.  A rune of several bytes, or an invalid
    byte, consists of bytes from 0x80 on, none of which is in the class. *)
Fixpoint replaceAll (s : string) : string :=
  match s with
  | EmptyString => EmptyString
  | String c r =>
      if inClass c then String c (replaceAll r)
      else replaceAll r
  end.

(** [asciiSpace] of package [strings]. *)
Definition asciiSpace (c : ascii) : bool :=
  match nat_of_ascii c with
  | 9%nat | 10%nat | 11%nat | 12%nat | 13%nat | 32%nat => true
  | _ => false
  end.

(** The ASCII path of [strings.Fields], the only one that [tokenize] takes,
    since [clenup] returns ASCII bytes only: [cur] is the field being read,
    if any (the bytes from [fieldStart] to [i]). *)
Fixpoint fieldsFrom (cur : option string) (s : string) : list string :=
  match s with
  | EmptyString =>
      match cur with
      | Some f => [f]
      | None => []
      end
  | String c r =>
      if asciiSpace c then
        match cur with
        | Some f => f :: fieldsFrom None r
        | None => fieldsFrom None r
        end
      else
        match cur with
        | Some f => fieldsFrom (Some (f ++ String c EmptyString)%string) r
        | None => fieldsFrom (Some (String c EmptyString)) r
        end
  end.

Definition Fields (s : string) : list string := fieldsFrom None s.

(** *** The stop words *)

Definition stopWords : gset string :=
  list_to_set
  [ "i"; "me"; "my"; "myself"; "we"; "our"; "ours";
    "ourselves"; "you"; "your"; "yours"; "yourself"; "yourselves";
    "he"; "him"; "his"; "himself"; "she"; "her"; "hers";
    "herself"; "it"; "its"; "itself"; "they"; "them"; "their";
    "theirs"; "themselves"; "what"; "which"; "who"; "whom"; "this";
    "that"; "these"; "those"; "am"; "is"; "are"; "was";
    "were"; "be"; "been"; "being"; "have"; "has"; "had";
    "having"; "do"; "does"; "did"; "doing"; "a"; "an";
    "the"; "and"; "but"; "if"; "or"; "because"; "as";
    "until"; "while"; "of"; "at"; "by"; "for"; "with";
    "about"; "against"; "between"; "into"; "through"; "during";
    "before"; "after"; "above"; "below"; "to"; "from"; "up";
    "down"; "in"; "out"; "on"; "off"; "over"; "under";
    "again"; "further"; "then"; "once"; "here"; "there"; "when";
    "where"; "why"; "how"; "all"; "any"; "both"; "each";
    "few"; "more"; "most"; "other"; "some"; "such"; "no";
    "nor"; "not"; "only"; "same"; "so"; "than"; "too";
    "very"; "can"; "will"; "just"; "don't"; "should"; "should've";
    "now"; "aren't"; "couldn't"; "didn't"; "doesn't"; "hasn't"; "haven't";
    "isn't"; "shouldn't"; "wasn't"; "weren't"; "won't"; "wouldn't" ].

Definition isStopWord (w : string) : bool := bool_decide (w ∈ stopWords).

Section WithUnicode.

(** [strings.ToLower] lower-cases byte by byte when the string is pure
    ASCII.  Otherwise it decodes UTF-8 and maps every rune through the
    Unicode case tables of the Go library ([strings.Map(unicode.ToLower,
    s)]); that path is a parameter of the development. *)
Variable mapToLower : string -> string.

Definition ToLower (s : string) : string :=
  if isASCII s then lowerASCII s else mapToLower s.

Definition clenup (sentence : string) : string :=
  replaceAll (ToLower sentence).

(** The loop of [tokenize]: [tokens = append(tokens, w)] for every
    field that is not a stop word. *)
Fixpoint keepTokens (tokens : list string) (words : list string) : list string :=
  match words with
  | [] => tokens
  | w :: rest =>
      if negb (isStopWord w) then keepTokens (tokens ++ [w]) rest
      else keepTokens tokens rest
  end.

Definition tokenize (sentence : string) : list string :=
  let s := clenup sentence in
  let words := Fields s in
  keepTokens [] words.

End WithUnicode.

End Tokenizer.

Import Tokenizer.

(** ** main.go *)

Module Classifier.

Definition positive : string := "positive".
Definition negative : string := "negative".

Record wordFrequency : Type := mkWordFrequency {
  word : string;
  counter : gmap string Z
}.

Record classifier : Type := mkClassifier {
  dataset : gmap string (list string);
  words : gmap string wordFrequency
}.

Definition newClassifier : classifier :=
  {| dataset := ∅; words := ∅ |}.

(** [m[k]] on a map of slices and on a map of ints: the zero value when
    the key is absent. *)
Definition sentencesOf (c : classifier) (class : string) : list string :=
  default [] (dataset c !! class).

Definition counterOf (wf : wordFrequency) (class : string) : Z :=
  default 0 (counter wf !! class).

Definition addSentence (c : classifier) (sentence class : string) : classifier :=
  {| dataset := <[class := (sentencesOf c class ++ [sentence])%list]> (dataset c);
     words := words c |}.

Definition addWord (c : classifier) (w class : string) : classifier :=
  let wf :=
    match words c !! w with
    | Some wf => wf
    | None => {| word := w; counter := {[positive := 0; negative := 0]} |}
    end in
  let wf' :=
    {| word := word wf;
       counter := <[class := counterOf wf class + 1]> (counter wf) |} in
  {| dataset := dataset c; words := <[w := wf']> (words c) |}.

Definition zeroOneTransform (x : Z) : Z :=
  if x =? 0 then 0 else 1.

Definition priorProb (c : classifier) (class : string) : float64 :=
  let classCount := of_int (Z.of_nat (length (sentencesOf c class))) in
  let totalCount :=
    of_int (Z.of_nat (length (sentencesOf c positive))
            + Z.of_nat (length (sentencesOf c negative))) in
  div classCount totalCount.

(** The loop of [wordCount] over the entries of [c.words] in the visiting
    order [order].  The body reads [wf.counter[positive]] whatever
    [class] is. *)
Definition wordCountIn (order : list (string * wordFrequency)) (class : string) : Z :=
  fold_left (fun count '(_, wf) => count + counterOf wf positive) order 0.

Definition wordCount (c : classifier) (class : string) : Z :=
  wordCountIn (map_to_list (words c)) class.

Definition totalWordCount (c : classifier) : Z :=
  wordCount c positive + wordCount c negative.

Definition totalDistinctWordCountIn (order : list (string * wordFrequency)) : Z :=
  let '(posCount, negCount) :=
    fold_left
      (fun '(posCount, negCount) '(_, wf) =>
         (posCount + zeroOneTransform (counterOf wf positive),
          negCount + zeroOneTransform (counterOf wf negative)))
      order (0, 0) in
  posCount + negCount.

Definition totalDistinctWordCount (c : classifier) : Z :=
  totalDistinctWordCountIn (map_to_list (words c)).

(** [count] as the first loop of [probability] computes it. *)
Definition classCount (c : classifier) (w class : string) : Z :=
  match words c !! w with
  | Some wf => counterOf wf class
  | None => 0
  end.

(** [count] as the second loop of [probability] computes it. *)
Definition bothCount (c : classifier) (w : string) : Z :=
  match words c !! w with
  | Some wf => counterOf wf positive + counterOf wf negative
  | None => 0
  end.

Definition probability (c : classifier) (ws : list string) (class : string) : float64 :=
  let prob := priorProb c class in
  let prob :=
    fold_left
      (fun prob w =>
         mul prob
           (div (of_int (classCount c w class + 1))
                (of_int (wordCount c class + totalDistinctWordCount c))))
      ws prob in
  let prob :=
    fold_left
      (fun prob w =>
         div prob
           (div (of_int (bothCount c w + 1))
                (of_int (totalWordCount c + totalDistinctWordCount c))))
      ws prob in
  prob.

(** [result[k]] on the map that [classify] returns. *)
Definition scoreOf (result : gmap string float64) (class : string) : float64 :=
  default (S754_zero false) (result !! class).

(** The choice of the label in the loop of [main]. *)
Definition mainClass (result : gmap string float64) : string :=
  let class := negative in
  if gt (scoreOf result positive) (scoreOf result negative) then positive
  else class.

Section WithUnicode.

Variable mapToLower : string -> string.

(** The body of the loop of [train]. *)
Definition trainStep (c : classifier) (entry : string * string) : classifier :=
  let '(sentence, class) := entry in
  let c := addSentence c sentence class in
  let ws := tokenize mapToLower sentence in
  fold_left (fun c w => addWord c w class) ws c.

(** [train], visiting the entries of the corpus in the order [order]. *)
Definition trainIn (c : classifier) (order : list (string * string)) : classifier :=
  fold_left trainStep order c.

Definition train (c : classifier) (corpus : gmap string string) : classifier :=
  trainIn c (map_to_list corpus).

Definition classify (c : classifier) (sentence : string) : gmap string float64 :=
  let ws := tokenize mapToLower sentence in
  let posProb := probability c ws positive in
  let negProb := probability c ws negative in
  {[positive := posProb; negative := negProb]}.

End WithUnicode.

End Classifier.

Import Classifier.

(** ** The specification's wording of the operations *)

Module Spec.

(** [classWordCount]: the sum, over all known tokens, of that class's
    counter. *)
Definition classWordCount (c : classifier) (class : string) : Z :=
  map_fold (fun _ wf acc => acc + counterOf wf class) 0 (words c).

(** [totalWordCount]: the sum of [classWordCount] over both classes. *)
Definition totalWordCount (c : classifier) : Z :=
  classWordCount c positive + classWordCount c negative.

(** [distinctWordCount]: the sum, over both classes, of the number of tokens
    whose counter for that class is strictly positive. *)
Definition tokensOf (c : classifier) (class : string) : list (string * wordFrequency) :=
  List.filter (fun '(_, wf) => 0 <? counterOf wf class) (map_to_list (words c)).

Definition distinctWordCount (c : classifier) : Z :=
  Z.of_nat (length (tokensOf c positive)) + Z.of_nat (length (tokensOf c negative)).

(** [count]: the stored counter, or zero if the token is unknown. *)
Definition count (c : classifier) (w class : string) : Z :=
  match words c !! w with
  | Some wf => counterOf wf class
  | None => 0
  end.

Definition totalOccurrences (c : classifier) (w : string) : Z :=
  count c w positive + count c w negative.

(** The two passes over the tokens: the prior, multiplied for each token by
    the smoothed likelihood, then divided for each token by the smoothed
    overall frequency; [classWords] and [totalWords] are the word counts in
    the two denominators. *)
Definition twoPasses (c : classifier) (ws : list string) (class : string)
    (classWords totalWords : Z) : float64 :=
  let likelihood w :=
    div (of_int (count c w class + 1))
        (of_int (classWords + distinctWordCount c)) in
  let frequency w :=
    div (of_int (totalOccurrences c w + 1))
        (of_int (totalWords + distinctWordCount c)) in
  fold_left (fun p w => div p (frequency w)) ws
    (fold_left (fun p w => mul p (likelihood w)) ws (priorProb c class)).

(** [probability], with [classWordCount(class)] and [totalWordCount()]. *)
Definition probability (c : classifier) (ws : list string) (class : string) : float64 :=
  twoPasses c ws class (classWordCount c class) (totalWordCount c).

(** The tokenizer in four steps. *)
Definition isLetter (c : ascii) : bool := isLower c || isUpper c.

Definition kept (c : ascii) : bool := isLetter c || isDigit c || Ascii.eqb c " ".

Definition deleteOthers (s : string) : string :=
  string_of_list_ascii (List.filter kept (list_ascii_of_string s)).

(** The fragments between whitespace bytes, the empty ones included. *)
Fixpoint fragments (l : list ascii) : list (list ascii) :=
  match l with
  | [] => [[]]
  | c :: r =>
      if asciiSpace c then [] :: fragments r
      else
        match fragments r with
        | f :: fs => (c :: f) :: fs
        | [] => [[c]]
        end
  end.

Definition splitOnSpaces (s : string) : list string :=
  map string_of_list_ascii
    (List.filter (fun f => negb (Nat.eqb (length f) 0))
       (fragments (list_ascii_of_string s))).

Definition tokenize (mapToLower : string -> string) (s : string) : list string :=
  List.filter (fun w => negb (isStopWord w))
    (splitOnSpaces (deleteOthers (ToLower mapToLower s))).

(** [tokenize_join]: the tokens joined again with single spaces. *)
Definition join (ts : list string) : string := String.concat " " ts.

End Spec.

(** ** Runs with arbitrary visiting orders *)

Module Runs.

(** [order] is a possible visiting order of [for ... range m]. *)
Definition visits {V : Type} (m : gmap string V) (order : list (string * V)) : Prop :=
  order ≡ₚ map_to_list m.

(** The first loop of [probability]; every call of [wordCount] and of
    [totalDistinctWordCount] visits [c.words] in an order of its own. *)
Inductive mulPass (c : classifier) (class : string) : float64 -> list string -> float64 -> Prop :=
| mulPass_nil (prob : float64) : mulPass c class prob [] prob
| mulPass_cons (prob prob' : float64) (w : string) (ws : list string)
    (o1 o2 : list (string * wordFrequency)) :
    visits (words c) o1 ->
    visits (words c) o2 ->
    mulPass c class
      (mul prob
         (div (of_int (classCount c w class + 1))
              (of_int (wordCountIn o1 class + totalDistinctWordCountIn o2))))
      ws prob' ->
    mulPass c class prob (w :: ws) prob'.

(** The second loop; [totalWordCount] calls [wordCount] twice. *)
Inductive divPass (c : classifier) : float64 -> list string -> float64 -> Prop :=
| divPass_nil (prob : float64) : divPass c prob [] prob
| divPass_cons (prob prob' : float64) (w : string) (ws : list string)
    (o1 o2 o3 : list (string * wordFrequency)) :
    visits (words c) o1 ->
    visits (words c) o2 ->
    visits (words c) o3 ->
    divPass c
      (div prob
         (div (of_int (bothCount c w + 1))
              (of_int (wordCountIn o1 positive + wordCountIn o2 negative
                       + totalDistinctWordCountIn o3))))
      ws prob' ->
    divPass c prob (w :: ws) prob'.

Definition probabilityRun (c : classifier) (ws : list string) (class : string)
    (prob : float64) : Prop :=
  exists p1, mulPass c class (priorProb c class) ws p1 /\ divPass c p1 ws prob.

Definition classifyRun (mapToLower : string -> string) (c : classifier)
    (sentence : string) (result : gmap string float64) : Prop :=
  exists posProb negProb,
    probabilityRun c (Tokenizer.tokenize mapToLower sentence) positive posProb /\
    probabilityRun c (Tokenizer.tokenize mapToLower sentence) negative negProb /\
    result = {[positive := posProb; negative := negProb]}.

(** The operations of a classifier instance. *)
Inductive op : Type :=
| OpAddSentence (sentence class : string)
| OpAddWord (w class : string)
| OpTrain (order : list (string * string))
| OpClassify (sentence : string).

(** [classify] and the functions it calls only read the classifier. *)
Definition run (mapToLower : string -> string) (c : classifier) (o : op) : classifier :=
  match o with
  | OpAddSentence sentence class => addSentence c sentence class
  | OpAddWord w class => addWord c w class
  | OpTrain order => trainIn mapToLower c order
  | OpClassify _ => c
  end.

Inductive reachable (mapToLower : string -> string) : classifier -> Prop :=
| reachable_new : reachable mapToLower newClassifier
| reachable_run (c : classifier) (o : op) :
    reachable mapToLower c -> reachable mapToLower (run mapToLower c o).

(** Every known token has an entry for both classes. *)
Definition bothClasses (c : classifier) : Prop :=
  forall w wf, words c !! w = Some wf ->
    is_Some (counter wf !! positive) /\ is_Some (counter wf !! negative).

(** The calls of [addWord] that [train] makes, in order. *)
Definition addWordCalls (mapToLower : string -> string)
    (order : list (string * string)) : list (string * string) :=
  flat_map (fun '(sentence, class) =>
              map (fun w => (w, class)) (Tokenizer.tokenize mapToLower sentence))
    order.

Definition addWords (c : classifier) (calls : list (string * string)) : classifier :=
  fold_left (fun c '(w, class) => addWord c w class) calls c.

(** No counter is negative. *)
Definition nonNegative (c : classifier) : Prop :=
  forall w wf class, words c !! w = Some wf -> 0 <= counterOf wf class.

(** How often [train] calls [addWord w class] when it visits [order]. *)
Definition callsOf (mapToLower : string -> string) (order : list (string * string))
    (w class : string) : nat :=
  length (filter (fun call => call = (w, class)) (addWordCalls mapToLower order)).

(** How many sentences of [order] are labelled [class]. *)
Definition labelled (order : list (string * string)) (class : string) : nat :=
  length (filter (fun entry => entry.2 = class) order).

(** The sum of [g] over the entries of a visiting order. *)
Definition total (g : wordFrequency -> Z) (order : list (string * wordFrequency)) : Z :=
  foldr (fun e acc => g e.2 + acc) 0 order.

End Runs.

Import Runs.

(** ** Bytes of sentences and of tokens *)

Module Bytes.

(** Every byte of [s] satisfies [p]. *)
Fixpoint allBytes (p : ascii -> bool) (s : string) : bool :=
  match s with
  | EmptyString => true
  | String c r => p c && allBytes p r
  end.

Definition notUpper (c : ascii) : bool := negb (isUpper c).

(** The bytes of a cleaned sentence, and the bytes of a token. *)
Definition cleanByte (c : ascii) : bool := inClass c && notUpper c.
Definition tokenByte (c : ascii) : bool := cleanByte c && negb (asciiSpace c).

(** A token: not empty, made of lower-case letters and digits, and not a
    stop word. *)
Definition isToken (w : string) : Prop :=
  allBytes tokenByte w = true /\ w <> EmptyString /\ isStopWord w = false.

(** The field being read after the bytes of [w], none of which is a space,
    have been scanned. *)
Definition extend (cur : option string) (w : string) : option string :=
  match cur with
  | Some f => Some (f ++ w)%string
  | None =>
      match w with
      | EmptyString => None
      | _ => Some w
      end
  end.

End Bytes.

Import Bytes.

(** ** Examples *)

Module Examples.

(** The corpus of the specification's example, in its two visiting orders. *)
Definition goodBad : list (string * string) :=
  [("good good good", positive); ("bad bad", negative)].

Definition badGood : list (string * string) :=
  [("bad bad", negative); ("good good good", positive)].

(** A stand-in for the Unicode path of [strings.ToLower] in closed examples,
    all of whose inputs are ASCII: it lower-cases the ASCII letters and keeps
    the other bytes. *)
Definition asciiOnly : string -> string := lowerASCII.

End Examples.

Import Examples.

(** ** The corpus loader and the shell of main.go *)

Module Loader.

Definition tab : ascii := "009"%char.

(** [strings.Split(s, sep)] for a separator of one byte: the pieces of [s]
    between the occurrences of [sep]; [cur] is the piece being read. *)
Fixpoint splitFrom (sep : ascii) (cur : string) (s : string) : list string :=
  match s with
  | EmptyString => [cur]
  | String c r =>
      if Ascii.eqb c sep then cur :: splitFrom sep EmptyString r
      else splitFrom sep (cur ++ String c EmptyString)%string r
  end.

Definition Split (s : string) (sep : ascii) : list string :=
  splitFrom sep EmptyString s.

(** What [dataset] sees of the file system: whether [os.Open] fails, the
    lines that [scanner.Text()] returns until [scanner.Scan()] returns
    false, and whether [scanner.Err()] is an error then. *)
Record file : Type := mkFile {
  openError : bool;
  scanned : list string;
  scanError : bool
}.

(** How a call ends: it returns, it panics, or [log.Fatal] exits. *)
Inductive result (A : Type) : Type :=
| Returned (a : A)
| Panicked
| Exited.

Arguments Returned {A} a.
Arguments Panicked {A}.
Arguments Exited {A}.

(** The body of the loop of [dataset]. *)
Definition datasetLine (dataset : gmap string string) (l : string) : gmap string string :=
  let data := Split l tab in
  match data with
  | [sentence; label] =>
      if String.eqb label "1" then <[sentence := positive]> dataset
      else <[sentence := negative]> dataset
  | _ => dataset
  end.

Definition dataset (f : file) : result (gmap string string) :=
  if openError f then Panicked
  else
    let dataset := fold_left datasetLine (scanned f) ∅ in
    if scanError f then Exited else Returned dataset.

(** The number of bytes [sep] in [s]. *)
Fixpoint countByte (sep : ascii) (s : string) : nat :=
  match s with
  | EmptyString => 0%nat
  | String c r => ((if Ascii.eqb c sep then 1 else 0) + countByte sep r)%nat
  end.

(** The sentence and the class that a line stands for, if it has exactly
    two fields. *)
Definition parseLine (l : string) : option (string * string) :=
  match Split l tab with
  | [sentence; label] =>
      Some (sentence, if String.eqb label "1" then positive else negative)
  | _ => None
  end.

End Loader.

Import Loader.

Module Shell.

Definition newline : ascii := "010"%char.

(** One round of the loop of [main], after the line has been read: the text
    that [fmt.Printf] writes. *)
Definition respond (mapToLower : string -> string) (nb : classifier)
    (sentence : string) : string :=
  let result := classify mapToLower nb sentence in
  let class := mainClass result in
  ("> Your text is " ++ class ++ String newline (String newline EmptyString))%string.

(** The start of [main]: the classifier that the loop uses, when [train]
    visits the corpus in the order [order]. *)
Definition startup (mapToLower : string -> string) (f : file)
    (order : list (string * string)) : result classifier :=
  match dataset f with
  | Returned _ => Returned (trainIn mapToLower newClassifier order)
  | Panicked => Panicked
  | Exited => Exited
  end.

End Shell.

Import Shell.

(** ** The frequency table after training on two classes *)

Module Table.

(** An entry as [addWord] leaves it when every class is positive or
    negative. *)
Definition entryOK (w : string) (wf : wordFrequency) : Prop :=
  word wf = w /\
  dom (counter wf) = ({[positive; negative]} : gset string) /\
  0 <= counterOf wf positive /\
  0 <= counterOf wf negative /\
  1 <= counterOf wf positive + counterOf wf negative.

Definition tableOK (c : classifier) : Prop :=
  forall w wf, words c !! w = Some wf -> entryOK w wf.

Definition twoClasses (entries : list (string * string)) : Prop :=
  List.Forall (fun entry => entry.2 = positive \/ entry.2 = negative) entries.

(** The stop words with an apostrophe. *)
Definition contractions : list string :=
  [ "don't"; "should've"; "aren't"; "couldn't"; "didn't"; "doesn't"; "hasn't";
    "haven't"; "isn't"; "shouldn't"; "wasn't"; "weren't"; "won't"; "wouldn't" ].

End Table.

Import Table.

(** * Properties *)

(** ** Integer sums do not depend on the visiting order *)

Lemma total_perm (g : wordFrequency -> Z) (o1 o2 : list (string * wordFrequency)) :
  o1 ≡ₚ o2 -> total g o1 = total g o2.
Proof.
  induction 1 as [| e l l' _ IH | e e' l | l l' l'' _ IH1 _ IH2]; cbn.
  - reflexivity.
  - unfold total in IH. rewrite IH. reflexivity.
  - lia.
  - congruence.
Qed.

Lemma fold_left_total (g : wordFrequency -> Z) (order : list (string * wordFrequency)) (a : Z) :
  fold_left (fun count '(_, wf) => count + g wf) order a = a + total g order.
Proof.
  revert a. induction order as [| [k wf] order IH]; intros a; cbn.
  - lia.
  - rewrite IH. fold (total g order). lia.
Qed.

Lemma wordCountIn_total (order : list (string * wordFrequency)) (class : string) :
  wordCountIn order class = total (fun wf => counterOf wf positive) order.
Proof.
  unfold wordCountIn.
  rewrite (fold_left_total (fun wf => counterOf wf positive)). lia.
Qed.

Lemma totalDistinctWordCountIn_total (order : list (string * wordFrequency)) :
  totalDistinctWordCountIn order
  = total (fun wf => zeroOneTransform (counterOf wf positive)) order
    + total (fun wf => zeroOneTransform (counterOf wf negative)) order.
Proof.
  unfold totalDistinctWordCountIn.
  assert (H : forall a b,
    fold_left
      (fun '(posCount, negCount) '(_, wf) =>
         (posCount + zeroOneTransform (counterOf wf positive),
          negCount + zeroOneTransform (counterOf wf negative)))
      order (a, b)
    = (a + total (fun wf => zeroOneTransform (counterOf wf positive)) order,
       b + total (fun wf => zeroOneTransform (counterOf wf negative)) order)).
  { induction order as [| [k wf] order IH]; intros a b; cbn.
    - f_equal; lia.
    - rewrite IH. unfold total. f_equal; lia. }
  rewrite H. lia.
Qed.

Lemma wordCountIn_visits (c : classifier) (order : list (string * wordFrequency))
    (class : string) :
  visits (words c) order -> wordCountIn order class = wordCount c class.
Proof.
  intros Hv. unfold wordCount. rewrite !wordCountIn_total. apply total_perm, Hv.
Qed.

Lemma totalDistinctWordCountIn_visits (c : classifier)
    (order : list (string * wordFrequency)) :
  visits (words c) order -> totalDistinctWordCountIn order = totalDistinctWordCount c.
Proof.
  intros Hv. unfold totalDistinctWordCount. rewrite !totalDistinctWordCountIn_total.
  f_equal; apply total_perm, Hv.
Qed.

Lemma classWordCount_total (c : classifier) (class : string) :
  Spec.classWordCount c class
  = total (fun wf => counterOf wf class) (map_to_list (words c)).
Proof.
  unfold Spec.classWordCount. rewrite map_fold_foldr. unfold total.
  induction (map_to_list (words c)) as [| [k wf] l IH]; cbn.
  - reflexivity.
  - rewrite IH. lia.
Qed.

(** [wordCount] returns the sum of the positive counters for every class. *)
Lemma wordCount_positive_sum (c : classifier) (class : string) :
  wordCount c class = Spec.classWordCount c positive.
Proof.
  unfold wordCount. rewrite wordCountIn_total, classWordCount_total. reflexivity.
Qed.

(** ** C1 *)

(** C1 (the code at the failing input).  After training a fresh classifier on
    "good good good" (positive) and "bad bad" (negative), in either visiting
    order of the corpus, the sum of the negative counters is 2 and the sum of
    the positive counters is 3, and [wordCount] returns 3 for both classes:
    it does not return the sum of the requested class's counter. *)
Theorem C1_wordCount_ignores_class :
  forall mapToLower : string -> string,
    Forall (fun order =>
              let c := trainIn mapToLower newClassifier order in
              Spec.classWordCount c positive = 3 /\
              Spec.classWordCount c negative = 2 /\
              wordCount c positive = 3 /\
              wordCount c negative = 3)
      [goodBad; badGood].
Proof.
  intros mapToLower.
  apply List.Forall_cons; [| apply List.Forall_cons; [| apply List.Forall_nil]];
    cbv zeta; rewrite !classWordCount_total; vm_compute; auto.
Qed.

(** ** C3 *)

Lemma div_zero_zero : div (of_int 0) (of_int 0) = S754_nan.
Proof. reflexivity. Qed.

(** C3 (counterexample).  The fresh classifier has two empty sentence sets
    and its prior probability is NaN for both classes: the division is not
    guarded. *)
Lemma C3_priorProb_unguarded :
  sentencesOf newClassifier positive = [] /\
  sentencesOf newClassifier negative = [] /\
  is_finite (priorProb newClassifier positive) = false /\
  is_finite (priorProb newClassifier negative) = false /\
  is_nan (priorProb newClassifier positive) = true /\
  is_nan (priorProb newClassifier negative) = true.
Proof. vm_compute. auto 10. Qed.

Lemma priorProb_empty (c : classifier) (class : string) :
  sentencesOf c positive = [] ->
  sentencesOf c negative = [] ->
  class = positive \/ class = negative ->
  priorProb c class = S754_nan.
Proof.
  intros Hp Hn [-> | ->]; unfold priorProb; rewrite ?Hp, ?Hn; apply div_zero_zero.
Qed.

(** C3 (amended).  When both sentence sets are empty, [priorProb] divides
    zero by zero without a guard and returns NaN, for either class. *)
Theorem C3_priorProb_empty_is_nan (c : classifier) (class : string) :
  sentencesOf c positive = [] ->
  sentencesOf c negative = [] ->
  class = positive \/ class = negative ->
  priorProb c class = S754_nan /\ is_finite (priorProb c class) = false.
Proof.
  intros Hp Hn Hc. rewrite (priorProb_empty c class Hp Hn Hc). split; reflexivity.
Qed.

Lemma C3_priorProb_empty_is_nan_witness :
  priorProb newClassifier negative = S754_nan /\
  is_finite (priorProb newClassifier negative) = false.
Proof.
  apply (C3_priorProb_empty_is_nan newClassifier negative).
  - reflexivity.
  - reflexivity.
  - right. reflexivity.
Defined.

(** ** C9 *)

Lemma SFcompare_Eq_sym (x y : spec_float) :
  SFcompare x y = Some Eq -> SFcompare y x = Some Eq.
Proof.
  destruct x as [sx | sx | | sx mx ex], y as [sy | sy | | sy my ey]; cbn;
    try (destruct sx); try (destruct sy); try congruence.
  - destruct (Z.compare_spec ex ey) as [-> | |]; try discriminate.
    intros H. rewrite Z.compare_refl.
    destruct (Pos.compare_cont Eq mx my) eqn:Hm; try discriminate.
    apply Pos.compare_eq in Hm. subst. now rewrite Pos.compare_cont_refl.
  - destruct (Z.compare_spec ex ey) as [-> | |]; try discriminate.
    intros H. rewrite Z.compare_refl.
    destruct (Pos.compare_cont Eq mx my) eqn:Hm; try discriminate.
    apply Pos.compare_eq in Hm. subst. now rewrite Pos.compare_cont_refl.
Qed.

Lemma feq_not_gt (x y : float64) : feq x y = true -> gt x y = false.
Proof.
  unfold feq, gt, SFeqb, SFltb. intros H.
  destruct (SFcompare x y) as [[| |] |] eqn:Hc; try discriminate.
  now rewrite (SFcompare_Eq_sym _ _ Hc).
Qed.

(** C9.  The label chosen in the loop of [main] is positive exactly when the
    positive score is greater than the negative score, and negative
    otherwise; equal scores give negative. *)
Theorem C9_mainClass (result : gmap string float64) :
  (mainClass result = positive <->
     gt (scoreOf result positive) (scoreOf result negative) = true) /\
  (mainClass result = negative <->
     gt (scoreOf result positive) (scoreOf result negative) = false) /\
  (feq (scoreOf result positive) (scoreOf result negative) = true ->
     mainClass result = negative) /\
  (scoreOf result positive = scoreOf result negative ->
     mainClass result = negative).
Proof.
  unfold mainClass.
  repeat split.
  - destruct (gt _ _); [reflexivity | discriminate].
  - intros ->. reflexivity.
  - destruct (gt _ _); [discriminate | reflexivity].
  - intros ->. reflexivity.
  - intros H. now rewrite (feq_not_gt _ _ H).
  - intros ->. unfold gt, SFltb.
    destruct (SFcompare _ _) as [[| |] |] eqn:Hc; try reflexivity.
    exfalso. revert Hc. generalize (scoreOf result negative). intros x.
    destruct x as [s | s | | s m e]; cbn; try destruct s; try discriminate.
    + rewrite Z.compare_refl, Pos.compare_cont_refl. discriminate.
    + rewrite Z.compare_refl, Pos.compare_cont_refl. discriminate.
Qed.

(** ** C10 *)

Lemma mulPass_loop (c : classifier) (class : string) (ws : list string)
    (prob prob' : float64) :
  mulPass c class prob ws prob' ->
  prob' = fold_left
            (fun prob w =>
               mul prob
                 (div (of_int (classCount c w class + 1))
                      (of_int (wordCount c class + totalDistinctWordCount c))))
            ws prob.
Proof.
  induction 1 as [prob | prob prob' w ws o1 o2 H1 H2 _ IH]; cbn.
  - reflexivity.
  - rewrite IH, (wordCountIn_visits c o1 class H1),
      (totalDistinctWordCountIn_visits c o2 H2). reflexivity.
Qed.

Lemma divPass_loop (c : classifier) (ws : list string) (prob prob' : float64) :
  divPass c prob ws prob' ->
  prob' = fold_left
            (fun prob w =>
               div prob
                 (div (of_int (bothCount c w + 1))
                      (of_int (totalWordCount c + totalDistinctWordCount c))))
            ws prob.
Proof.
  induction 1 as [prob | prob prob' w ws o1 o2 o3 H1 H2 H3 _ IH]; cbn.
  - reflexivity.
  - rewrite IH, (wordCountIn_visits c o1 positive H1),
      (wordCountIn_visits c o2 negative H2),
      (totalDistinctWordCountIn_visits c o3 H3). reflexivity.
Qed.

Lemma visits_refl {V : Type} (m : gmap string V) : visits m (map_to_list m).
Proof. unfold visits. reflexivity. Qed.

Lemma mulPass_total (c : classifier) (class : string) (ws : list string) (prob : float64) :
  exists prob', mulPass c class prob ws prob'.
Proof.
  revert prob. induction ws as [| w ws IH]; intros prob.
  - exists prob. constructor.
  - edestruct IH as [prob' H]. exists prob'.
    eapply mulPass_cons; [apply visits_refl | apply visits_refl | exact H].
Qed.

Lemma divPass_total (c : classifier) (ws : list string) (prob : float64) :
  exists prob', divPass c prob ws prob'.
Proof.
  revert prob. induction ws as [| w ws IH]; intros prob.
  - exists prob. constructor.
  - edestruct IH as [prob' H]. exists prob'.
    eapply divPass_cons;
      [apply visits_refl | apply visits_refl | apply visits_refl | exact H].
Qed.

Lemma probabilityRun_value (c : classifier) (ws : list string) (class : string)
    (prob : float64) :
  probabilityRun c ws class prob -> prob = probability c ws class.
Proof.
  intros (p1 & Hm & Hd). apply mulPass_loop in Hm. apply divPass_loop in Hd.
  subst. reflexivity.
Qed.

Lemma probabilityRun_total (c : classifier) (ws : list string) (class : string) :
  probabilityRun c ws class (probability c ws class).
Proof.
  destruct (mulPass_total c class ws (priorProb c class)) as [p1 Hm].
  destruct (divPass_total c ws p1) as [p2 Hd].
  assert (Hp : probabilityRun c ws class p2) by (exists p1; auto).
  rewrite <- (probabilityRun_value _ _ _ _ Hp). exact Hp.
Qed.

(** C10.  [classify] is deterministic: whatever order each call of
    [wordCount] and [totalDistinctWordCount] visits the map in, a run of
    [classify] on a given classifier and sentence exists and returns one
    and the same pair of scores. *)
Theorem C10_classify_deterministic (mapToLower : string -> string)
    (c : classifier) (sentence : string) :
  classifyRun mapToLower c sentence (classify mapToLower c sentence) /\
  forall r1 r2 : gmap string float64,
    classifyRun mapToLower c sentence r1 ->
    classifyRun mapToLower c sentence r2 ->
    r1 = r2.
Proof.
  split.
  - exists (probability c (Tokenizer.tokenize mapToLower sentence) positive),
      (probability c (Tokenizer.tokenize mapToLower sentence) negative).
    split; [apply probabilityRun_total |].
    split; [apply probabilityRun_total | reflexivity].
  - intros r1 r2 (p1 & n1 & Hp1 & Hn1 & ->) (p2 & n2 & Hp2 & Hn2 & ->).
    apply probabilityRun_value in Hp1, Hn1, Hp2, Hn2. congruence.
Qed.

(** ** C4 *)

Lemma scoreOf_classify (mapToLower : string -> string) (c : classifier)
    (sentence : string) :
  scoreOf (classify mapToLower c sentence) positive
  = probability c (Tokenizer.tokenize mapToLower sentence) positive /\
  scoreOf (classify mapToLower c sentence) negative
  = probability c (Tokenizer.tokenize mapToLower sentence) negative.
Proof.
  unfold scoreOf, classify; cbv zeta. split.
  - rewrite lookup_insert_eq. reflexivity.
  - rewrite lookup_insert_ne by (unfold positive, negative; discriminate).
    rewrite lookup_singleton_eq. reflexivity.
Qed.




(** ** What [addWord], [addSentence] and [train] change *)

Lemma fold_left_ext {A B : Type} (f g : A -> B -> A) (l : list B) (a : A) :
  (forall x y, f x y = g x y) -> fold_left f l a = fold_left g l a.
Proof.
  intros H. revert a. induction l as [| y l IH]; intros a; cbn.
  - reflexivity.
  - rewrite H. apply IH.
Qed.

Lemma counterOf_initial (class : string) :
  default 0 (({[positive := 0; negative := 0]} : gmap string Z) !! class) = 0.
Proof.
  destruct (decide (class = positive)) as [-> | Hp].
  - rewrite lookup_insert_eq. reflexivity.
  - rewrite lookup_insert_ne by congruence.
    destruct (decide (class = negative)) as [-> | Hn].
    + rewrite lookup_singleton_eq. reflexivity.
    + rewrite lookup_singleton_ne by congruence. reflexivity.
Qed.

Lemma classCount_addWord (c : classifier) (w class w' class' : string) :
  classCount (addWord c w class) w' class'
  = classCount c w' class'
    + (if bool_decide (w' = w /\ class' = class) then 1 else 0).
Proof.
  unfold classCount, addWord; cbn.
  destruct (decide (w' = w)) as [-> | Hw].
  - rewrite lookup_insert_eq. unfold counterOf at 1; cbn.
    destruct (decide (class' = class)) as [-> | Hc].
    + rewrite lookup_insert_eq, bool_decide_true by auto. cbn.
      destruct (words c !! w) as [wf |]; [reflexivity |].
      unfold counterOf; cbn. rewrite counterOf_initial. reflexivity.
    + rewrite lookup_insert_ne, bool_decide_false by (try congruence; tauto).
      destruct (words c !! w) as [wf |]; [unfold counterOf; lia |].
      cbn. rewrite counterOf_initial. lia.
  - rewrite lookup_insert_ne, bool_decide_false by (try congruence; tauto). lia.
Qed.

Lemma words_addWord_ext (c1 c2 : classifier) (w class : string) :
  words c1 = words c2 -> words (addWord c1 w class) = words (addWord c2 w class).
Proof. unfold addWord; cbn. intros ->. reflexivity. Qed.

Lemma classCount_ext (c1 c2 : classifier) (w class : string) :
  words c1 = words c2 -> classCount c1 w class = classCount c2 w class.
Proof. unfold classCount. intros ->. reflexivity. Qed.

Lemma words_addWords_ext (calls : list (string * string)) (c1 c2 : classifier) :
  words c1 = words c2 -> words (addWords c1 calls) = words (addWords c2 calls).
Proof.
  revert c1 c2. induction calls as [| [w class] calls IH]; intros c1 c2 H; cbn.
  - exact H.
  - apply IH, words_addWord_ext, H.
Qed.

Lemma words_trainStep (mapToLower : string -> string) (c : classifier)
    (sentence class : string) :
  words (trainStep mapToLower c (sentence, class))
  = words (addWords c (map (fun w => (w, class))
                         (Tokenizer.tokenize mapToLower sentence))).
Proof.
  unfold trainStep.
  assert (H : words (addSentence c sentence class) = words c) by reflexivity.
  revert H. generalize (addSentence c sentence class). revert c.
  induction (Tokenizer.tokenize mapToLower sentence) as [| w ws IH];
    intros c c' H; cbn.
  - exact H.
  - apply IH, words_addWord_ext, H.
Qed.

Lemma addWords_app (c : classifier) (l1 l2 : list (string * string)) :
  addWords c (l1 ++ l2) = addWords (addWords c l1) l2.
Proof. unfold addWords. apply fold_left_app. Qed.

Lemma words_trainIn (mapToLower : string -> string)
    (order : list (string * string)) (c : classifier) :
  words (trainIn mapToLower c order)
  = words (addWords c (addWordCalls mapToLower order)).
Proof.
  revert c. induction order as [| [sentence class] order IH]; intros c.
  - reflexivity.
  - change (trainIn mapToLower c ((sentence, class) :: order))
      with (trainIn mapToLower (trainStep mapToLower c (sentence, class)) order).
    rewrite IH. cbn [addWordCalls flat_map]. rewrite addWords_app.
    apply words_addWords_ext, words_trainStep.
Qed.

Lemma classCount_addWords (calls : list (string * string)) (c : classifier)
    (w class : string) :
  classCount (addWords c calls) w class
  = classCount c w class
    + Z.of_nat (length (filter (fun call => call = (w, class)) calls)).
Proof.
  revert c. induction calls as [| [w0 class0] calls IH]; intros c.
  - cbn. lia.
  - change (addWords c ((w0, class0) :: calls))
      with (addWords (addWord c w0 class0) calls).
    rewrite IH, classCount_addWord, filter_cons.
    destruct (decide ((w0, class0) = (w, class))) as [Heq | Hne].
    + injection Heq as -> ->. rewrite bool_decide_true by auto. cbn [length]. lia.
    + rewrite bool_decide_false; [lia |]. intros [-> ->]. apply Hne. reflexivity.
Qed.

Lemma classCount_trainIn (mapToLower : string -> string)
    (order : list (string * string)) (c : classifier) (w class : string) :
  classCount (trainIn mapToLower c order) w class
  = classCount c w class + Z.of_nat (callsOf mapToLower order w class).
Proof.
  rewrite (classCount_ext _ _ w class (words_trainIn mapToLower order c)).
  apply classCount_addWords.
Qed.

Lemma callsOf_perm (mapToLower : string -> string)
    (o1 o2 : list (string * string)) (w class : string) :
  o1 ≡ₚ o2 -> callsOf mapToLower o1 w class = callsOf mapToLower o2 w class.
Proof.
  intros H. unfold callsOf, addWordCalls.
  apply Permutation_length, filter_Permutation, Permutation_flat_map, H.
Qed.

Lemma labelled_perm (o1 o2 : list (string * string)) (class : string) :
  o1 ≡ₚ o2 -> labelled o1 class = labelled o2 class.
Proof.
  intros H. unfold labelled. apply Permutation_length, filter_Permutation, H.
Qed.

Lemma sentencesOf_addWords (ws : list string) (class' : string) (c : classifier)
    (class : string) :
  sentencesOf (fold_left (fun c w => addWord c w class') ws c) class
  = sentencesOf c class.
Proof.
  revert c. induction ws as [| w ws IH]; intros c; cbn.
  - reflexivity.
  - rewrite IH. reflexivity.
Qed.

Lemma length_sentencesOf_addSentence (c : classifier) (sentence class' class : string) :
  length (sentencesOf (addSentence c sentence class') class)
  = (length (sentencesOf c class) + (if decide (class' = class) then 1 else 0))%nat.
Proof.
  unfold sentencesOf, addSentence; cbn.
  destruct (decide (class' = class)) as [-> | Hne].
  - rewrite lookup_insert_eq. cbn. rewrite length_app. reflexivity.
  - rewrite lookup_insert_ne by exact Hne. lia.
Qed.

Lemma length_sentencesOf_trainIn (mapToLower : string -> string)
    (order : list (string * string)) (c : classifier) (class : string) :
  length (sentencesOf (trainIn mapToLower c order) class)
  = (length (sentencesOf c class) + labelled order class)%nat.
Proof.
  revert c. induction order as [| [sentence class'] order IH]; intros c.
  - cbn. lia.
  - change (trainIn mapToLower c ((sentence, class') :: order))
      with (trainIn mapToLower (trainStep mapToLower c (sentence, class')) order).
    rewrite IH. unfold trainStep.
    rewrite sentencesOf_addWords, length_sentencesOf_addSentence.
    unfold labelled. rewrite filter_cons. cbn [snd].
    destruct (decide (class' = class)); cbn [length]; lia.
Qed.

(** ** C5 *)

(** C5 (counterexample).  From a classifier that has already seen "good"
    (positive), training once and training twice on the corpus "bad"
    (negative) both leave the positive counter of "good" and the positive
    sentence set at 1: neither is doubled. *)
Lemma C5_not_doubled_from_trained_state :
  let corpus : gmap string string := {["bad" := negative]} in
  let c := train asciiOnly newClassifier {["good" := positive]} in
  let once := train asciiOnly c corpus in
  let twice := train asciiOnly (train asciiOnly c corpus) corpus in
  classCount once "good" positive = 1 /\
  classCount twice "good" positive = 1 /\
  classCount twice "good" positive <> 2 * classCount once "good" positive /\
  length (sentencesOf once positive) = 1%nat /\
  length (sentencesOf twice positive) = 1%nat.
Proof. vm_compute. repeat split; congruence. Qed.

(** C5 (amended).  Whatever orders the three calls of [train] visit the
    corpus in, training twice adds to every counter and to every sentence
    set exactly twice what training once adds; on a fresh classifier the
    counters and the sizes themselves are doubled. *)
Theorem C5_train_twice_doubles_increments (mapToLower : string -> string)
    (c : classifier) (corpus : gmap string string)
    (o1 o2 o3 : list (string * string)) (w class : string) :
  visits corpus o1 -> visits corpus o2 -> visits corpus o3 ->
  let once := trainIn mapToLower c o1 in
  let twice := trainIn mapToLower (trainIn mapToLower c o2) o3 in
  classCount twice w class - classCount c w class
    = 2 * (classCount once w class - classCount c w class) /\
  (length (sentencesOf twice class) - length (sentencesOf c class)
    = 2 * (length (sentencesOf once class) - length (sentencesOf c class)))%nat /\
  (c = newClassifier ->
   classCount twice w class = 2 * classCount once w class /\
   length (sentencesOf twice class) = (2 * length (sentencesOf once class))%nat).
Proof.
  intros H1 H2 H3 once twice. subst once twice.
  rewrite !classCount_trainIn, !length_sentencesOf_trainIn.
  rewrite (callsOf_perm mapToLower o1 (map_to_list corpus)) by exact H1.
  rewrite (callsOf_perm mapToLower o2 (map_to_list corpus)) by exact H2.
  rewrite (callsOf_perm mapToLower o3 (map_to_list corpus)) by exact H3.
  rewrite (labelled_perm o1 (map_to_list corpus)) by exact H1.
  rewrite (labelled_perm o2 (map_to_list corpus)) by exact H2.
  rewrite (labelled_perm o3 (map_to_list corpus)) by exact H3.
  split; [lia |]. split; [lia |].
  intros ->. unfold classCount, sentencesOf; cbn.
  rewrite !lookup_empty; cbn. split; lia.
Qed.

Lemma C5_train_twice_doubles_increments_witness :
  let once := trainIn asciiOnly newClassifier goodBad in
  let twice := trainIn asciiOnly (trainIn asciiOnly newClassifier badGood) goodBad in
  classCount twice "good" positive = 2 * classCount once "good" positive /\
  length (sentencesOf twice positive) = (2 * length (sentencesOf once positive))%nat.
Proof.
  intros once twice.
  refine (proj2 (proj2
    (C5_train_twice_doubles_increments asciiOnly newClassifier
       (list_to_map goodBad) goodBad badGood goodBad "good" positive _ _ _))
    eq_refl);
    unfold visits; vm_compute map_to_list;
    first [reflexivity | apply Permutation_swap].
Defined.

(** ** C7 *)

Lemma bothClasses_addWord (c : classifier) (w class : string) :
  bothClasses c -> bothClasses (addWord c w class).
Proof.
  intros Hc w' wf'. unfold addWord; cbv zeta; cbn [words].
  set (wf0 := match words c !! w with
              | Some wf => wf
              | None => {| word := w; counter := {[positive := 0; negative := 0]} |}
              end).
  assert (Hold : is_Some (counter wf0 !! positive) /\
                 is_Some (counter wf0 !! negative)).
  { subst wf0. destruct (words c !! w) as [wf |] eqn:Hw.
    - apply (Hc w wf Hw).
    - cbn [counter]. split.
      + rewrite lookup_insert_eq. eauto.
      + rewrite lookup_insert_ne by discriminate.
        rewrite lookup_singleton_eq. eauto. }
  destruct Hold as [Hp Hn].
  destruct (decide (w' = w)) as [-> | Hne].
  - rewrite lookup_insert_eq. intros [= <-]; cbn [counter].
    rewrite !lookup_insert_is_Some.
    destruct (decide (class = positive)), (decide (class = negative)); auto.
  - rewrite lookup_insert_ne by congruence. apply Hc.
Qed.

Lemma nonNegative_addWord (c : classifier) (w class : string) :
  nonNegative c -> nonNegative (addWord c w class).
Proof.
  intros Hc w' wf' class' Hw'.
  pose proof (classCount_addWord c w class w' class') as H.
  unfold classCount at 1 in H. rewrite Hw' in H. rewrite H.
  assert (0 <= classCount c w' class').
  { unfold classCount. destruct (words c !! w') as [wf |] eqn:Hw; [| lia].
    apply (Hc w' wf class' Hw). }
  destruct (bool_decide _); lia.
Qed.

Lemma dom_words_addWord (c : classifier) (w class : string) :
  dom (words c) ⊆ dom (words (addWord c w class)).
Proof. unfold addWord; cbn. rewrite dom_insert. set_solver. Qed.

Lemma addWords_preserves (P : classifier -> Prop) :
  (forall c w class, P c -> P (addWord c w class)) ->
  forall calls c, P c -> P (addWords c calls).
Proof.
  intros HP calls. induction calls as [| [w class] calls IH]; intros c Hc.
  - exact Hc.
  - apply IH, HP, Hc.
Qed.

Lemma bothClasses_ext (c1 c2 : classifier) :
  words c1 = words c2 -> bothClasses c2 -> bothClasses c1.
Proof. unfold bothClasses. intros ->. auto. Qed.

Lemma nonNegative_ext (c1 c2 : classifier) :
  words c1 = words c2 -> nonNegative c2 -> nonNegative c1.
Proof. unfold nonNegative. intros ->. auto. Qed.

Lemma words_run (mapToLower : string -> string) (c : classifier) (o : op) :
  exists calls, words (run mapToLower c o) = words (addWords c calls).
Proof.
  destruct o as [sentence class | w class | order | sentence]; cbn.
  - exists []. reflexivity.
  - exists [(w, class)]. reflexivity.
  - exists (addWordCalls mapToLower order). apply words_trainIn.
  - exists []. reflexivity.
Qed.

Lemma reachable_invariants (mapToLower : string -> string) (c : classifier) :
  reachable mapToLower c -> bothClasses c /\ nonNegative c.
Proof.
  induction 1 as [| c o _ [IHb IHn]].
  - split; intros w wf; cbn; rewrite lookup_empty; discriminate.
  - destruct (words_run mapToLower c o) as [calls Hw]. split.
    + apply (bothClasses_ext _ _ Hw).
      apply (addWords_preserves bothClasses); [apply bothClasses_addWord | exact IHb].
    + apply (nonNegative_ext _ _ Hw).
      apply (addWords_preserves nonNegative); [apply nonNegative_addWord | exact IHn].
Qed.

Lemma dom_words_addWords (calls : list (string * string)) (c : classifier) :
  dom (words c) ⊆ dom (words (addWords c calls)).
Proof.
  revert c. induction calls as [| [w class] calls IH]; intros c.
  - reflexivity.
  - etransitivity; [apply (dom_words_addWord c w class) | apply IH].
Qed.

(** C7.  In every state that the operations of a classifier reach from the
    fresh one, each known token has an entry for both classes.  [addWord]
    adds one to the counter of its token and class and leaves every other
    counter as it was; [addSentence] and [classify] leave the table as it
    is, and [train] changes it as its calls of [addWord] do.  No operation
    removes a key or lowers a counter. *)
Theorem C7_frequency_table (mapToLower : string -> string) (c : classifier) :
  reachable mapToLower c ->
  bothClasses c /\
  (forall w class w' class',
     classCount (addWord c w class) w' class'
     = classCount c w' class'
       + (if bool_decide (w' = w /\ class' = class) then 1 else 0)) /\
  (forall sentence class, words (addSentence c sentence class) = words c) /\
  (forall sentence, words (run mapToLower c (OpClassify sentence)) = words c) /\
  (forall order,
     words (trainIn mapToLower c order)
     = words (addWords c (addWordCalls mapToLower order))) /\
  (forall o,
     dom (words c) ⊆ dom (words (run mapToLower c o)) /\
     forall w class, classCount c w class <= classCount (run mapToLower c o) w class).
Proof.
  intros Hr. split; [apply (reachable_invariants mapToLower c Hr) |].
  split; [intros; apply classCount_addWord |].
  split; [reflexivity |]. split; [reflexivity |].
  split; [intros; apply words_trainIn |].
  intros o. destruct (words_run mapToLower c o) as [calls Hw]. split.
  - rewrite Hw. apply dom_words_addWords.
  - intros w class. rewrite (classCount_ext _ _ w class Hw), classCount_addWords. lia.
Qed.

Lemma C7_frequency_table_witness :
  let c := trainIn asciiOnly newClassifier goodBad in
  bothClasses c /\
  classCount (addWord c "bad" positive) "bad" positive = 1 /\
  classCount (addWord c "bad" positive) "bad" negative = 2.
Proof.
  intros c.
  assert (Hr : reachable asciiOnly c)
    by apply (reachable_run asciiOnly newClassifier (OpTrain goodBad)), reachable_new.
  destruct (C7_frequency_table asciiOnly c Hr) as (Hb & Hadd & _).
  split; [exact Hb |].
  split; rewrite Hadd; vm_compute; reflexivity.
Defined.

(** ** C2 *)

Lemma total_zeroOne (class : string) (l : list (string * wordFrequency)) :
  Forall (fun e => 0 <= counterOf e.2 class) l ->
  total (fun wf => zeroOneTransform (counterOf wf class)) l
  = Z.of_nat (length (List.filter (fun '(_, wf) => 0 <? counterOf wf class) l)).
Proof.
  induction 1 as [| [k wf] l Hx _ IH]; cbn [total foldr List.filter].
  - reflexivity.
  - fold (total (fun wf => zeroOneTransform (counterOf wf class)) l).
    rewrite IH. cbn [snd] in *. unfold zeroOneTransform.
    destruct (Z.eqb_spec (counterOf wf class) 0) as [-> | Hne].
    + cbn. lia.
    + destruct (Z.ltb_spec 0 (counterOf wf class)); [| lia].
      cbn [length]. lia.
Qed.

Lemma totalDistinctWordCount_spec (c : classifier) :
  nonNegative c -> totalDistinctWordCount c = Spec.distinctWordCount c.
Proof.
  intros Hc. unfold totalDistinctWordCount, Spec.distinctWordCount, Spec.tokensOf.
  rewrite totalDistinctWordCountIn_total.
  assert (H : forall class,
    Forall (fun e => 0 <= counterOf e.2 class) (map_to_list (words c))).
  { intros class. apply Forall_forall. intros [k wf] Hin.
    apply elem_of_map_to_list in Hin. apply (Hc k wf class Hin). }
  rewrite !total_zeroOne by apply H. reflexivity.
Qed.

Lemma bothCount_spec (c : classifier) (w : string) :
  bothCount c w = Spec.totalOccurrences c w.
Proof.
  unfold bothCount, Spec.totalOccurrences, Spec.count.
  destruct (words c !! w); reflexivity.
Qed.

(** X1.  What [probability] computes: the two passes of the specification, with
    the sum of the positive counters where the specification has
    [classWordCount(class)], and twice that sum where it has
    [totalWordCount()]. *)
Theorem probability_as_coded (mapToLower : string -> string) (c : classifier)
    (ws : list string) (class : string) :
  reachable mapToLower c ->
  probability c ws class
  = Spec.twoPasses c ws class
      (Spec.classWordCount c positive) (2 * Spec.classWordCount c positive).
Proof.
  intros Hr. destruct (reachable_invariants mapToLower c Hr) as [_ Hn].
  unfold probability, Spec.twoPasses; cbv zeta.
  unfold totalWordCount. rewrite !wordCount_positive_sum.
  rewrite (totalDistinctWordCount_spec c Hn).
  replace (Spec.classWordCount c positive + Spec.classWordCount c positive)
    with (2 * Spec.classWordCount c positive) by lia.
  erewrite (fold_left_ext _ (fun p w => div p _)) by (intros; rewrite bothCount_spec; reflexivity).
  reflexivity.
Qed.

Lemma probability_as_coded_witness :
  let c := trainIn asciiOnly newClassifier goodBad in
  probability c ["bad"] negative = Spec.twoPasses c ["bad"] negative 3 6.
Proof.
  intros c.
  assert (Hr : reachable asciiOnly c)
    by apply (reachable_run asciiOnly newClassifier (OpTrain goodBad)), reachable_new.
  rewrite (probability_as_coded asciiOnly c ["bad"] negative Hr).
  rewrite classWordCount_total. vm_compute. reflexivity.
Defined.

(** C2 (the code at the failing input).  After training a fresh classifier
    on "good good good" (positive) and "bad bad" (negative), for the token
    list ["bad"] the formula of the specification gives 0.875 for the
    negative class and 0.2333... for the positive class, and [probability]
    returns 0.8 and 0.2666...: its denominators hold the sum of the positive
    counters (3) for the negative class and twice that sum (6) as the total
    word count, where the formula has 2 and 5. *)
Theorem C2_probability_at_good_bad :
  forall mapToLower : string -> string,
    let c := trainIn mapToLower newClassifier goodBad in
    Spec.probability c ["bad"] negative = S754_finite false 7881299347898368 (-53) /\
    probability c ["bad"] negative = S754_finite false 7205759403792793 (-53) /\
    Spec.probability c ["bad"] negative = Spec.twoPasses c ["bad"] negative 2 5 /\
    probability c ["bad"] negative = Spec.twoPasses c ["bad"] negative 3 6 /\
    probability c ["bad"] negative <> Spec.probability c ["bad"] negative /\
    probability c ["bad"] positive <> Spec.probability c ["bad"] positive.
Proof.
  intros mapToLower c.
  assert (Hn : Spec.classWordCount c negative = 2)
    by (rewrite classWordCount_total; vm_compute; reflexivity).
  assert (Hp : Spec.classWordCount c positive = 3)
    by (rewrite classWordCount_total; vm_compute; reflexivity).
  unfold Spec.probability, Spec.totalWordCount. rewrite Hn, Hp.
  vm_compute. repeat split; congruence.
Qed.

(** ** C6 *)

Lemma string_append_cons (x : ascii) (a b : string) :
  (String x a ++ b)%string = String x (a ++ b)%string.
Proof. reflexivity. Qed.

Lemma string_append_assoc (a b c : string) :
  ((a ++ b) ++ c)%string = (a ++ (b ++ c))%string.
Proof.
  induction a as [| x a IH]; [reflexivity |].
  rewrite !string_append_cons, IH. reflexivity.
Qed.

Lemma string_append_nil_r (a : string) : (a ++ "")%string = a.
Proof.
  induction a as [| x a IH]; [reflexivity |].
  rewrite string_append_cons, IH. reflexivity.
Qed.

Lemma inClass_kept (c : ascii) : inClass c = Spec.kept c.
Proof.
  unfold inClass, Spec.kept, Spec.isLetter.
  destruct (isLower c), (isUpper c), (Ascii.eqb c " "), (isDigit c); reflexivity.
Qed.

Lemma replaceAll_deleteOthers (s : string) : replaceAll s = Spec.deleteOthers s.
Proof.
  unfold Spec.deleteOthers.
  induction s as [| c s IH]; cbn; [reflexivity |].
  rewrite <- inClass_kept. destruct (inClass c); cbn; now rewrite IH.
Qed.

Lemma fragments_not_nil (l : list ascii) : Spec.fragments l <> [].
Proof.
  induction l as [| c l IH]; cbn; [discriminate |].
  destruct (asciiSpace c); [discriminate |].
  destruct (Spec.fragments l); discriminate.
Qed.

Lemma fieldsFrom_fragments (s : string) (cur : option string) :
  fieldsFrom cur s
  = match Spec.fragments (list_ascii_of_string s), cur with
    | f0 :: fs, None =>
        map string_of_list_ascii
          (List.filter (fun f => negb (Nat.eqb (length f) 0)) (f0 :: fs))
    | f0 :: fs, Some f =>
        (f ++ string_of_list_ascii f0)%string
        :: map string_of_list_ascii
             (List.filter (fun f => negb (Nat.eqb (length f) 0)) fs)
    | [], _ => []
    end.
Proof.
  revert cur. induction s as [| c s IH]; intros cur; cbn.
  - destruct cur as [f |]; [now rewrite string_append_nil_r | reflexivity].
  - pose proof (fragments_not_nil (list_ascii_of_string s)) as Hne.
    destruct (asciiSpace c).
    + destruct cur as [f |]; rewrite (IH None), ?string_append_nil_r;
        destruct (Spec.fragments (list_ascii_of_string s)); reflexivity.
    + destruct cur as [f |]; rewrite IH;
        destruct (Spec.fragments (list_ascii_of_string s)) as [| f0 fs];
        try congruence; cbn; try reflexivity.
      now rewrite string_append_assoc, string_append_cons.
Qed.

Lemma Fields_splitOnSpaces (s : string) : Fields s = Spec.splitOnSpaces s.
Proof.
  unfold Fields, Spec.splitOnSpaces. rewrite fieldsFrom_fragments.
  destruct (Spec.fragments (list_ascii_of_string s)) eqn:H; [| reflexivity].
  now apply fragments_not_nil in H.
Qed.

Lemma keepTokens_filter (ws tokens : list string) :
  keepTokens tokens ws
  = (tokens ++ List.filter (fun w => negb (isStopWord w)) ws)%list.
Proof.
  revert tokens. induction ws as [| w ws IH]; intros tokens; cbn.
  - now rewrite app_nil_r.
  - destruct (isStopWord w); cbn; rewrite IH; [reflexivity |].
    now rewrite <- app_assoc.
Qed.

Lemma tokenize_spec (mapToLower : string -> string) (s : string) :
  Tokenizer.tokenize mapToLower s = Spec.tokenize mapToLower s.
Proof.
  unfold Tokenizer.tokenize, Spec.tokenize, clenup; cbv zeta.
  now rewrite keepTokens_filter, Fields_splitOnSpaces, replaceAll_deleteOthers.
Qed.

Lemma inClass_isASCIIByte (c : ascii) : inClass c = true -> isASCIIByte c = true.
Proof. destruct c as [[] [] [] [] [] [] [] []]; vm_compute; congruence. Qed.

(** [Fields] only ever sees pure ASCII input, the input of its ASCII path. *)
Lemma clenup_isASCII (mapToLower : string -> string) (s : string) :
  isASCII (clenup mapToLower s) = true.
Proof.
  unfold clenup. generalize (ToLower mapToLower s). intros x.
  induction x as [| c x IH]; cbn [replaceAll]; [reflexivity |].
  destruct (inClass c) eqn:Hc; [| exact IH].
  cbn [isASCII]. rewrite (inClass_isASCIIByte c Hc). exact IH.
Qed.

(** C6.  [tokenize] lower-cases its input, deletes every byte that is not
    an ASCII letter, an ASCII digit or a space, splits the rest at runs of
    whitespace and drops the stop words, keeping the order of the other
    tokens; "The restaurant is excellent" gives "restaurant", "excellent"
    and "The, is! a" gives no token. *)
Theorem C6_tokenize (mapToLower : string -> string) :
  (forall s : string,
     Tokenizer.tokenize mapToLower s
     = List.filter (fun w => negb (isStopWord w))
         (Spec.splitOnSpaces (Spec.deleteOthers (ToLower mapToLower s)))) /\
  Tokenizer.tokenize mapToLower "The restaurant is excellent"
  = ["restaurant"; "excellent"] /\
  Tokenizer.tokenize mapToLower "The, is! a" = [].
Proof.
  split; [apply tokenize_spec |]. split; vm_compute; reflexivity.
Qed.

(** ** C8 *)

Ltac by_bytes c :=
  destruct c as [[] [] [] [] [] [] [] []]; vm_compute; intuition congruence.

Lemma cleanByte_facts (c : ascii) :
  cleanByte c = true ->
  isASCIIByte c = true /\ isUpper c = false /\ inClass c = true.
Proof. by_bytes c. Qed.

Lemma tokenByte_facts (c : ascii) :
  tokenByte c = true -> cleanByte c = true /\ asciiSpace c = false.
Proof. by_bytes c. Qed.

Lemma isUpper_lowerByte (c : ascii) : notUpper (lowerByte c) = true.
Proof. by_bytes c. Qed.

Lemma cleanByte_space : cleanByte " " = true.
Proof. reflexivity. Qed.

Lemma allBytes_impl (p q : ascii -> bool) (s : string) :
  (forall c, p c = true -> q c = true) ->
  allBytes p s = true -> allBytes q s = true.
Proof.
  intros H. induction s as [| c s IH]; cbn; [reflexivity |].
  intros [Hc Hs]%andb_true_iff. rewrite (H c Hc), (IH Hs). reflexivity.
Qed.

Lemma allBytes_append (p : ascii -> bool) (a b : string) :
  allBytes p (a ++ b)%string = allBytes p a && allBytes p b.
Proof.
  induction a as [| x a IH]; [reflexivity |].
  rewrite string_append_cons. cbn. rewrite IH. apply andb_assoc.
Qed.

Lemma allBytes_join (p : ascii -> bool) (ts : list string) :
  p " "%char = true ->
  List.Forall (fun w => allBytes p w = true) ts ->
  allBytes p (Spec.join ts) = true.
Proof.
  intros Hsp. unfold Spec.join.
  induction 1 as [| t ts Ht Hts IH]; [reflexivity |].
  destruct ts as [| t' ts]; [exact Ht |].
  change (String.concat " " (t :: t' :: ts))
    with (t ++ String " " (String.concat " " (t' :: ts)))%string.
  rewrite allBytes_append, Ht. cbn [allBytes andb]. rewrite Hsp. exact IH.
Qed.

Lemma lowerASCII_notUpper (s : string) : allBytes notUpper (lowerASCII s) = true.
Proof.
  induction s as [| c s IH]; cbn; [reflexivity |].
  rewrite isUpper_lowerByte. exact IH.
Qed.

Lemma lowerASCII_id (s : string) : allBytes notUpper s = true -> lowerASCII s = s.
Proof.
  induction s as [| c s IH]; cbn; [reflexivity |].
  intros [Hc Hs]%andb_true_iff. rewrite (IH Hs). unfold lowerByte.
  unfold notUpper in Hc. destruct (isUpper c); [discriminate | reflexivity].
Qed.

Lemma ToLower_notUpper (mapToLower : string -> string) (s : string) :
  (forall x, allBytes notUpper (mapToLower x) = true) ->
  allBytes notUpper (ToLower mapToLower s) = true.
Proof.
  intros H. unfold ToLower. destruct (isASCII s); [apply lowerASCII_notUpper | apply H].
Qed.

Lemma replaceAll_clean (s : string) :
  allBytes notUpper s = true -> allBytes cleanByte (replaceAll s) = true.
Proof.
  induction s as [| c s IH]; cbn; [reflexivity |].
  intros [Hc Hs]%andb_true_iff.
  destruct (inClass c) eqn:Hin; [| exact (IH Hs)].
  cbn. unfold cleanByte at 1. rewrite Hin, Hc. exact (IH Hs).
Qed.

Lemma replaceAll_id (s : string) : allBytes inClass s = true -> replaceAll s = s.
Proof.
  induction s as [| c s IH]; cbn; [reflexivity |].
  intros [Hc Hs]%andb_true_iff. rewrite Hc, (IH Hs). reflexivity.
Qed.

Lemma fieldsFrom_tokens (s : string) (cur : option string) :
  allBytes cleanByte s = true ->
  (forall f, cur = Some f -> allBytes tokenByte f = true /\ f <> EmptyString) ->
  List.Forall (fun w => allBytes tokenByte w = true /\ w <> EmptyString)
    (fieldsFrom cur s).
Proof.
  revert cur. induction s as [| c s IH]; intros cur Hs Hcur; cbn.
  - destruct cur as [f |]; constructor; auto.
  - cbn in Hs. apply andb_true_iff in Hs as [Hc Hs].
    destruct (asciiSpace c) eqn:Hsp.
    + destruct cur as [f |].
      * constructor; [auto |]. apply IH; [exact Hs | discriminate].
      * apply IH; [exact Hs | discriminate].
    + assert (Ht : tokenByte c = true) by (unfold tokenByte; now rewrite Hc, Hsp).
      destruct cur as [f |]; apply IH; try exact Hs; intros f' [= <-].
      * destruct (Hcur f eq_refl) as [Hf _]. split.
        -- rewrite allBytes_append, Hf. cbn. now rewrite Ht.
        -- destruct f; discriminate.
      * split; [cbn; now rewrite Ht | discriminate].
Qed.

Lemma tokenize_isToken (mapToLower : string -> string) (s : string) :
  (forall x, allBytes notUpper (mapToLower x) = true) ->
  List.Forall isToken (Tokenizer.tokenize mapToLower s).
Proof.
  intros H. unfold Tokenizer.tokenize, clenup; cbv zeta.
  rewrite keepTokens_filter. cbn [app].
  pose proof (fieldsFrom_tokens (replaceAll (ToLower mapToLower s)) None
                (replaceAll_clean _ (ToLower_notUpper mapToLower s H))) as Hf.
  fold (Fields (replaceAll (ToLower mapToLower s))) in Hf.
  specialize (Hf ltac:(discriminate)).
  induction Hf as [| w ws [Hw Hne] _ IH]; cbn; [constructor |].
  destruct (isStopWord w) eqn:Hstop; cbn; [exact IH |].
  constructor; [| exact IH]. repeat split; assumption.
Qed.

Lemma fieldsFrom_word (w : string) (cur : option string) (rest : string) :
  allBytes tokenByte w = true ->
  fieldsFrom cur (w ++ rest)%string = fieldsFrom (extend cur w) rest.
Proof.
  revert cur. induction w as [| c w IH]; intros cur Hw.
  - destruct cur as [f |]; cbn; [now rewrite string_append_nil_r | reflexivity].
  - cbn in Hw. apply andb_true_iff in Hw as [Hc Hw].
    destruct (tokenByte_facts c Hc) as [_ Hsp].
    rewrite string_append_cons. cbn [fieldsFrom]. rewrite Hsp.
    destruct cur as [f |]; rewrite (IH _ Hw); cbn [extend].
    + now rewrite string_append_assoc, string_append_cons.
    + rewrite string_append_cons. reflexivity.
Qed.

Lemma Fields_join (ts : list string) :
  List.Forall (fun w => allBytes tokenByte w = true /\ w <> EmptyString) ts ->
  Fields (Spec.join ts) = ts.
Proof.
  unfold Fields, Spec.join.
  induction 1 as [| t ts [Ht Hne] Hts IH]; [reflexivity |].
  destruct ts as [| t' ts].
  - cbn [String.concat]. rewrite <- (string_append_nil_r t) at 1.
    rewrite (fieldsFrom_word t None "" Ht). cbn.
    destruct t; [congruence | reflexivity].
  - change (String.concat " " (t :: t' :: ts))
      with (t ++ (String " " (String.concat " " (t' :: ts))))%string.
    rewrite (fieldsFrom_word t None _ Ht). cbn [extend].
    destruct t as [| c t]; [congruence |].
    cbn [fieldsFrom]. change (asciiSpace " ") with true. cbv iota.
    rewrite IH. reflexivity.
Qed.

Lemma isASCII_allBytes (s : string) : isASCII s = allBytes isASCIIByte s.
Proof. induction s as [| c s IH]; cbn; [reflexivity | now rewrite IH]. Qed.

Lemma tokenize_join (mapToLower : string -> string) (ts : list string) :
  List.Forall isToken ts ->
  Tokenizer.tokenize mapToLower (Spec.join ts) = ts.
Proof.
  intros Hts.
  assert (Hclean : allBytes cleanByte (Spec.join ts) = true).
  { apply allBytes_join; [apply cleanByte_space |].
    eapply List.Forall_impl; [| exact Hts]. intros w (Hw & _ & _).
    revert Hw. apply allBytes_impl. intros c Hc. apply (tokenByte_facts c Hc). }
  unfold Tokenizer.tokenize, clenup, ToLower; cbv zeta.
  rewrite isASCII_allBytes.
  rewrite (allBytes_impl cleanByte isASCIIByte (Spec.join ts)
             (fun c Hc => proj1 (cleanByte_facts c Hc)) Hclean).
  rewrite lowerASCII_id
    by (revert Hclean; apply allBytes_impl; intros c Hc;
        unfold notUpper; now rewrite (proj1 (proj2 (cleanByte_facts c Hc)))).
  rewrite replaceAll_id
    by (revert Hclean; apply allBytes_impl; intros c Hc;
        apply (cleanByte_facts c Hc)).
  rewrite Fields_join
    by (eapply List.Forall_impl; [| exact Hts]; intros w (Hw & Hne & _); auto).
  rewrite keepTokens_filter. cbn [app]. clear Hclean.
  induction Hts as [| t ts (_ & _ & Hstop) _ IH]; cbn [List.filter];
    [reflexivity |].
  rewrite Hstop. cbn [negb]. now rewrite IH.
Qed.

(** C8.  Tokenizing the tokens of a sentence, joined by single spaces, gives
    these tokens again, provided the Unicode path of [strings.ToLower]
    returns no upper-case ASCII letter, as a lower-case mapping does. *)
Theorem C8_tokenize_idempotent (mapToLower : string -> string) (s : string) :
  (forall x, allBytes notUpper (mapToLower x) = true) ->
  Tokenizer.tokenize mapToLower (Spec.join (Tokenizer.tokenize mapToLower s))
  = Tokenizer.tokenize mapToLower s.
Proof.
  intros H. apply tokenize_join, tokenize_isToken, H.
Qed.

Lemma C8_tokenize_idempotent_witness :
  Tokenizer.tokenize asciiOnly
    (Spec.join (Tokenizer.tokenize asciiOnly "The restaurant, is EXCELLENT!"))
  = Tokenizer.tokenize asciiOnly "The restaurant, is EXCELLENT!" /\
  Tokenizer.tokenize asciiOnly "The restaurant, is EXCELLENT!"
  = ["restaurant"; "excellent"].
Proof.
  split.
  - apply (C8_tokenize_idempotent asciiOnly "The restaurant, is EXCELLENT!").
    exact lowerASCII_notUpper.
  - vm_compute. reflexivity.
Defined.

(** * Further properties *)

(** ** The corpus loader *)

Lemma splitFrom_not_nil (sep : ascii) (s cur : string) : splitFrom sep cur s <> [].
Proof.
  revert cur. induction s as [| c s IH]; intros cur; cbn; [discriminate |].
  destruct (Ascii.eqb c sep); [discriminate | apply IH].
Qed.

Lemma concat_cons (sep x : string) (xs : list string) :
  xs <> [] ->
  String.concat sep (x :: xs) = (x ++ sep ++ String.concat sep xs)%string.
Proof. destruct xs; [congruence | reflexivity]. Qed.

Lemma splitFrom_concat (sep : ascii) (s cur : string) :
  String.concat (String sep EmptyString) (splitFrom sep cur s) = (cur ++ s)%string.
Proof.
  revert cur. induction s as [| c s IH]; intros cur; cbn [splitFrom].
  - cbn. now rewrite string_append_nil_r.
  - destruct (Ascii.eqb_spec c sep) as [-> | Hne].
    + rewrite concat_cons by apply splitFrom_not_nil. rewrite IH. reflexivity.
    + rewrite IH, string_append_assoc. reflexivity.
Qed.

Lemma splitFrom_length (sep : ascii) (s cur : string) :
  length (splitFrom sep cur s) = S (countByte sep s).
Proof.
  revert cur. induction s as [| c s IH]; intros cur; cbn [splitFrom countByte].
  - reflexivity.
  - destruct (Ascii.eqb c sep); cbn [length]; rewrite IH; reflexivity.
Qed.

Lemma allBytes_snoc (p : ascii -> bool) (a : string) (c : ascii) :
  allBytes p (a ++ String c EmptyString)%string = allBytes p a && p c.
Proof. rewrite allBytes_append. cbn. now rewrite andb_true_r. Qed.

Lemma splitFrom_pieces (sep : ascii) (s cur : string) :
  allBytes (fun c => negb (Ascii.eqb c sep)) cur = true ->
  List.Forall (fun piece => allBytes (fun c => negb (Ascii.eqb c sep)) piece = true)
    (splitFrom sep cur s).
Proof.
  revert cur. induction s as [| c s IH]; intros cur Hcur; cbn [splitFrom].
  - constructor; [exact Hcur | constructor].
  - destruct (Ascii.eqb c sep) eqn:Hc.
    + constructor; [exact Hcur | apply IH; reflexivity].
    + apply IH. rewrite allBytes_snoc, Hcur, Hc. reflexivity.
Qed.

(** [strings.Split] with a separator of one byte cuts a string into one
    piece more than it has separators, no piece holds the separator, and
    joining the pieces with the separator gives the string back. *)
Theorem Split_round_trip (s : string) (sep : ascii) :
  String.concat (String sep EmptyString) (Split s sep) = s /\
  length (Split s sep) = S (countByte sep s) /\
  List.Forall (fun piece => countByte sep piece = 0%nat) (Split s sep).
Proof.
  unfold Split. split; [apply splitFrom_concat |]. split; [apply splitFrom_length |].
  eapply List.Forall_impl; [| apply (splitFrom_pieces sep s EmptyString eq_refl)].
  intros piece. induction piece as [| c piece IH]; cbn; [reflexivity |].
  destruct (Ascii.eqb c sep); cbn; [discriminate | exact IH].
Qed.

Lemma countByte_allBytes (sep : ascii) (s : string) :
  countByte sep s = 0%nat -> allBytes (fun c => negb (Ascii.eqb c sep)) s = true.
Proof.
  induction s as [| c s IH]; cbn; [reflexivity |].
  destruct (Ascii.eqb c sep); cbn; [discriminate | exact IH].
Qed.

Lemma splitFrom_piece (sep : ascii) (s cur rest : string) :
  countByte sep s = 0%nat ->
  splitFrom sep cur (s ++ rest)%string = splitFrom sep (cur ++ s)%string rest.
Proof.
  revert cur. induction s as [| c s IH]; intros cur Hs.
  - now rewrite string_append_nil_r.
  - cbn in Hs. rewrite string_append_cons. cbn [splitFrom].
    destruct (Ascii.eqb c sep); [discriminate |].
    rewrite IH by exact Hs. now rewrite string_append_assoc, string_append_cons.
Qed.

Lemma Split_two_fields (s label : string) :
  countByte tab s = 0%nat -> countByte tab label = 0%nat ->
  Split (s ++ String tab label)%string tab = [s; label].
Proof.
  intros Hs Hl. unfold Split.
  rewrite (splitFrom_piece tab s EmptyString _ Hs). cbn [splitFrom].
  rewrite Ascii.eqb_refl. f_equal.
  rewrite <- (string_append_nil_r label) at 1.
  rewrite (splitFrom_piece tab label EmptyString EmptyString Hl). reflexivity.
Qed.

Lemma datasetLine_parseLine (m : gmap string string) (l : string) :
  datasetLine m l
  = match parseLine l with
    | Some (s, class) => <[s := class]> m
    | None => m
    end.
Proof.
  unfold datasetLine, parseLine; cbv zeta.
  destruct (Split l tab) as [| a [| b [| c r]]]; try reflexivity.
  destruct (String.eqb b "1"); reflexivity.
Qed.

Lemma parseLine_class (l s class : string) :
  parseLine l = Some (s, class) -> class = positive \/ class = negative.
Proof.
  unfold parseLine. destruct (Split l tab) as [| a [| b [| c r]]]; try discriminate.
  destruct (String.eqb b "1"); intros [= _ <-]; auto.
Qed.

(** X2.  A line of the corpus file changes the corpus only if it has exactly
    one tab.  Then the text before the tab is mapped to positive when the
    text after it is "1", and to negative for every other text, the empty
    one included; an earlier class of the same sentence is overwritten. *)
Theorem datasetLine_effect (m : gmap string string) :
  (forall l, countByte tab l <> 1%nat -> datasetLine m l = m) /\
  (forall s label,
     countByte tab s = 0%nat -> countByte tab label = 0%nat ->
     datasetLine m (s ++ String tab label)%string
     = <[s := if String.eqb label "1" then positive else negative]> m) /\
  (forall s, countByte tab s = 0%nat ->
     datasetLine m (s ++ String tab EmptyString)%string = <[s := negative]> m).
Proof.
  split; [| split].
  - intros l Hl. unfold datasetLine; cbv zeta.
    pose proof (splitFrom_length tab l EmptyString) as Hlen. fold (Split l tab) in Hlen.
    destruct (Split l tab) as [| a [| b [| c r]]]; try reflexivity.
    cbn in Hlen. congruence.
  - intros s label Hs Hl. unfold datasetLine; cbv zeta.
    rewrite (Split_two_fields s label Hs Hl).
    destruct (String.eqb label "1"); reflexivity.
  - intros s Hs. unfold datasetLine; cbv zeta.
    rewrite (Split_two_fields s EmptyString Hs eq_refl). reflexivity.
Qed.

Lemma fold_datasetLine_lookup_other (lines : list string) (m : gmap string string)
    (s : string) :
  List.Forall (fun l => forall class, parseLine l <> Some (s, class)) lines ->
  fold_left datasetLine lines m !! s = m !! s.
Proof.
  intros H. revert m. induction H as [| l lines Hl _ IH]; intros m; cbn [fold_left].
  - reflexivity.
  - rewrite IH, datasetLine_parseLine.
    destruct (parseLine l) as [[s' class] |] eqn:Hp; [| reflexivity].
    apply lookup_insert_ne. intros ->. apply (Hl class). reflexivity.
Qed.

Lemma fold_datasetLine_classes (lines : list string) (m : gmap string string) :
  (forall s class, m !! s = Some class -> class = positive \/ class = negative) ->
  forall s class, fold_left datasetLine lines m !! s = Some class ->
    class = positive \/ class = negative.
Proof.
  revert m. induction lines as [| l lines IH]; intros m Hm; cbn [fold_left].
  - exact Hm.
  - apply IH. intros s class. rewrite datasetLine_parseLine.
    destruct (parseLine l) as [[s' class'] |] eqn:Hp; [| apply Hm].
    destruct (decide (s' = s)) as [-> | Hne].
    + rewrite lookup_insert_eq. intros [= <-]. apply (parseLine_class l s class' Hp).
    + rewrite lookup_insert_ne by exact Hne. apply Hm.
Qed.

(** X3.  [dataset] panics when the file cannot be opened and exits when the
    scanner stops on an error, after all lines have been taken in.
    Otherwise it returns a map in which every class is positive or
    negative, and a sentence is a key only if some line stands for it. *)
Theorem dataset_outcome (f : file) :
  match dataset f with
  | Panicked => openError f = true
  | Exited => openError f = false /\ scanError f = true
  | Returned m =>
      openError f = false /\ scanError f = false /\
      (forall s class, m !! s = Some class -> class = positive \/ class = negative) /\
      (forall s,
         List.Forall (fun l => forall class, parseLine l <> Some (s, class)) (scanned f) ->
         m !! s = None)
  end.
Proof.
  unfold dataset. destruct (openError f); [reflexivity |]. cbv zeta.
  destruct (scanError f); [split; reflexivity |].
  split; [reflexivity |]. split; [reflexivity |]. split.
  - apply fold_datasetLine_classes. intros s class. rewrite lookup_empty. discriminate.
  - intros s H. rewrite (fold_datasetLine_lookup_other _ _ s H). apply lookup_empty.
Qed.

(** X4.  When a sentence occurs on several lines of the corpus file, the
    last of these lines decides its class. *)
Theorem dataset_last_line_wins (f : file) (m : gmap string string)
    (before after : list string) (l s class : string) :
  dataset f = Returned m ->
  scanned f = (before ++ l :: after)%list ->
  parseLine l = Some (s, class) ->
  List.Forall (fun l' => forall class', parseLine l' <> Some (s, class')) after ->
  m !! s = Some class.
Proof.
  unfold dataset. destruct (openError f); [discriminate |]. cbv zeta.
  destruct (scanError f); [discriminate |]. intros [= <-] -> Hp Hafter.
  rewrite fold_left_app. cbn [fold_left].
  rewrite (fold_datasetLine_lookup_other _ _ s Hafter), datasetLine_parseLine, Hp.
  apply lookup_insert_eq.
Qed.

Lemma dataset_last_line_wins_witness :
  let tabbed a b := (a ++ String tab b)%string in
  let f := {| openError := false;
              scanned := [tabbed "good film" "1"; "no tab here";
                          tabbed "good film" "0"; tabbed "bad film" "0"];
              scanError := false |} in
  exists m, dataset f = Returned m /\ m !! "good film" = Some negative.
Proof.
  intros tabbed f. eexists. split; [reflexivity |].
  apply (dataset_last_line_wins f _
           [tabbed "good film" "1"; "no tab here"] [tabbed "bad film" "0"]
           (tabbed "good film" "0") "good film" negative).
  - reflexivity.
  - reflexivity.
  - reflexivity.
  - repeat constructor. intros class'. vm_compute. discriminate.
Defined.

(** ** What training leaves in the classifier *)

Lemma sentencesOf_trainStep (mapToLower : string -> string) (c : classifier)
    (sentence class' class : string) :
  sentencesOf (trainStep mapToLower c (sentence, class')) class
  = (sentencesOf c class ++ (if decide (class' = class) then [sentence] else []))%list.
Proof.
  unfold trainStep. rewrite sentencesOf_addWords.
  unfold sentencesOf, addSentence; cbn.
  destruct (decide (class' = class)) as [-> | Hne].
  - rewrite lookup_insert_eq. reflexivity.
  - rewrite lookup_insert_ne by exact Hne. now rewrite app_nil_r.
Qed.

Lemma train_sentence_sets_aux (mapToLower : string -> string)
    (order : list (string * string)) (c : classifier) (class : string) :
  sentencesOf (trainIn mapToLower c order) class
  = (sentencesOf c class ++ (filter (fun entry => entry.2 = class) order).*1)%list.
Proof.
  revert c. induction order as [| [sentence class'] order IH]; intros c.
  - cbn. now rewrite app_nil_r.
  - change (trainIn mapToLower c ((sentence, class') :: order))
      with (trainIn mapToLower (trainStep mapToLower c (sentence, class')) order).
    rewrite IH, sentencesOf_trainStep, filter_cons. cbn [snd].
    destruct (decide (class' = class)); cbn; rewrite <- app_assoc; reflexivity.
Qed.

(** X5.  After [train], the sentence set of a class holds what it held
    before, followed by the sentences of the corpus with this class, in the
    order in which [train] visited them; its size grows by their number. *)
Theorem train_sentence_sets (mapToLower : string -> string)
    (order : list (string * string)) (c : classifier) (class : string) :
  sentencesOf (trainIn mapToLower c order) class
  = (sentencesOf c class ++ (filter (fun entry => entry.2 = class) order).*1)%list /\
  length (sentencesOf (trainIn mapToLower c order) class)
  = (length (sentencesOf c class) + labelled order class)%nat.
Proof.
  split; [apply train_sentence_sets_aux | apply length_sentencesOf_trainIn].
Qed.

Lemma total_delete (g : wordFrequency -> Z) (m : gmap string wordFrequency) (w : string) :
  total g (map_to_list m)
  = match m !! w with Some y => g y | None => 0 end
    + total g (map_to_list (delete w m)).
Proof.
  destruct (m !! w) as [y |] eqn:Hw.
  - rewrite <- (insert_delete_id m w y Hw) at 1.
    rewrite (total_perm g _ _ (map_to_list_insert _ w y (lookup_delete_eq m w))).
    reflexivity.
  - rewrite delete_id by exact Hw. lia.
Qed.

Lemma classWordCount_addWord (c : classifier) (w class class' : string) :
  Spec.classWordCount (addWord c w class) class'
  = Spec.classWordCount c class' + (if bool_decide (class' = class) then 1 else 0).
Proof.
  rewrite !classWordCount_total.
  rewrite (total_delete _ (words (addWord c w class)) w).
  rewrite (total_delete _ (words c) w).
  pose proof (classCount_addWord c w class w class') as H.
  unfold classCount in H. rewrite H.
  assert (Hd : delete w (words (addWord c w class)) = delete w (words c)).
  { unfold addWord; cbn [words]. apply delete_insert_eq. }
  rewrite Hd.
  destruct (decide (class' = class)) as [-> | Hne].
  - rewrite !bool_decide_true by auto. lia.
  - rewrite !bool_decide_false by tauto. lia.
Qed.

Lemma classWordCount_ext (c1 c2 : classifier) (class : string) :
  words c1 = words c2 -> Spec.classWordCount c1 class = Spec.classWordCount c2 class.
Proof. unfold Spec.classWordCount. intros ->. reflexivity. Qed.

Lemma classWordCount_addWords (calls : list (string * string)) (c : classifier)
    (class : string) :
  Spec.classWordCount (addWords c calls) class
  = Spec.classWordCount c class
    + Z.of_nat (length (filter (fun call => call.2 = class) calls)).
Proof.
  revert c. induction calls as [| [w0 class0] calls IH]; intros c.
  - cbn. lia.
  - change (addWords c ((w0, class0) :: calls))
      with (addWords (addWord c w0 class0) calls).
    rewrite IH, classWordCount_addWord, filter_cons. cbn [snd].
    destruct (decide (class0 = class)) as [-> | Hne].
    + rewrite bool_decide_true by auto. cbn [length]. lia.
    + rewrite bool_decide_false by congruence. lia.
Qed.

(** X6.  Training adds to the counter of a token and a class the number of
    times the token occurs in the sentences of that class, and to the sum of
    the counters of a class the number of tokens in its sentences.
    [wordCount] returns the sum for the positive class whatever class it is
    asked for. *)
Theorem train_counts (mapToLower : string -> string)
    (order : list (string * string)) (c : classifier) (w class : string) :
  let calls := addWordCalls mapToLower order in
  classCount (trainIn mapToLower c order) w class
  = classCount c w class
    + Z.of_nat (length (filter (fun call => call = (w, class)) calls)) /\
  Spec.classWordCount (trainIn mapToLower c order) class
  = Spec.classWordCount c class
    + Z.of_nat (length (filter (fun call => call.2 = class) calls)) /\
  wordCount (trainIn mapToLower c order) class
  = Spec.classWordCount c positive
    + Z.of_nat (length (filter (fun call => call.2 = positive) calls)).
Proof.
  cbv zeta. split; [apply classCount_trainIn |].
  rewrite wordCount_positive_sum.
  rewrite !(classWordCount_ext _ _ _ (words_trainIn mapToLower order c)).
  split; apply classWordCount_addWords.
Qed.

(** ** The visiting order of [train] does not matter *)

Lemma addWord_comm (c : classifier) (w1 class1 w2 class2 : string) :
  addWord (addWord c w1 class1) w2 class2 = addWord (addWord c w2 class2) w1 class1.
Proof.
  unfold addWord; cbn [words dataset]. f_equal.
  destruct (decide (w1 = w2)) as [-> | Hw].
  - rewrite !lookup_insert_eq, !insert_insert_eq. f_equal. cbn [word counter].
    f_equal. unfold counterOf; cbn [counter].
    destruct (decide (class1 = class2)) as [-> | Hc].
    + reflexivity.
    + rewrite !lookup_insert_ne by congruence. apply insert_insert_ne. congruence.
  - rewrite !lookup_insert_ne by congruence. apply insert_insert_ne. congruence.
Qed.

Lemma addWords_perm (l1 l2 : list (string * string)) :
  l1 ≡ₚ l2 -> forall c, addWords c l1 = addWords c l2.
Proof.
  induction 1 as [| [w class] l l' _ IH | [w1 class1] [w2 class2] l
                  | l l' l'' _ IH1 _ IH2]; intros c.
  - reflexivity.
  - apply IH.
  - cbn. now rewrite addWord_comm.
  - now rewrite IH1, IH2.
Qed.

Lemma priorProb_ext (c1 c2 : classifier) (class : string) :
  length (sentencesOf c1 class) = length (sentencesOf c2 class) ->
  length (sentencesOf c1 positive) = length (sentencesOf c2 positive) ->
  length (sentencesOf c1 negative) = length (sentencesOf c2 negative) ->
  priorProb c1 class = priorProb c2 class.
Proof. unfold priorProb. intros -> -> ->. reflexivity. Qed.

Lemma probability_ext (c1 c2 : classifier) (ws : list string) (class : string) :
  words c1 = words c2 ->
  priorProb c1 class = priorProb c2 class ->
  probability c1 ws class = probability c2 ws class.
Proof.
  intros Hw Hp.
  unfold probability, totalWordCount, wordCount, totalDistinctWordCount,
    classCount, bothCount.
  rewrite Hw, Hp. reflexivity.
Qed.

(** X7.  Two runs of [train] that visit the same corpus in different orders
    leave the same frequency table and the same sentences in every set, in
    another order at most, and [classify] returns the same scores after
    both. *)
Theorem train_order_irrelevant (mapToLower : string -> string) (c : classifier)
    (o1 o2 : list (string * string)) :
  o1 ≡ₚ o2 ->
  words (trainIn mapToLower c o1) = words (trainIn mapToLower c o2) /\
  (forall class,
     sentencesOf (trainIn mapToLower c o1) class
     ≡ₚ sentencesOf (trainIn mapToLower c o2) class) /\
  (forall sentence,
     classify mapToLower (trainIn mapToLower c o1) sentence
     = classify mapToLower (trainIn mapToLower c o2) sentence).
Proof.
  intros Hperm.
  assert (Hw : words (trainIn mapToLower c o1) = words (trainIn mapToLower c o2)).
  { rewrite !words_trainIn. f_equal. apply addWords_perm.
    unfold addWordCalls. apply Permutation_flat_map, Hperm. }
  assert (Hs : forall class,
             sentencesOf (trainIn mapToLower c o1) class
             ≡ₚ sentencesOf (trainIn mapToLower c o2) class).
  { intros class. rewrite !train_sentence_sets_aux.
    apply Permutation_app_head, fmap_Permutation, filter_Permutation, Hperm. }
  split; [exact Hw |]. split; [exact Hs |].
  intros sentence. unfold classify; cbv zeta.
  assert (Hp : forall class,
             priorProb (trainIn mapToLower c o1) class
             = priorProb (trainIn mapToLower c o2) class).
  { intros class. apply priorProb_ext; apply Permutation_length, Hs. }
  rewrite (probability_ext _ _ _ positive Hw (Hp positive)).
  rewrite (probability_ext _ _ _ negative Hw (Hp negative)). reflexivity.
Qed.

Lemma train_order_irrelevant_witness :
  classify asciiOnly (trainIn asciiOnly newClassifier goodBad) "Good, not bad!"
  = classify asciiOnly (trainIn asciiOnly newClassifier badGood) "Good, not bad!".
Proof.
  apply (train_order_irrelevant asciiOnly newClassifier goodBad badGood).
  apply Permutation_swap.
Defined.

(** ** NaN scores *)

Lemma fold_left_mul_nan {A : Type} (g : A -> float64) (ws : list A) :
  fold_left (fun p w => mul p (g w)) ws S754_nan = S754_nan.
Proof. induction ws as [| w ws IH]; cbn; [reflexivity | exact IH]. Qed.

Lemma fold_left_div_nan {A : Type} (g : A -> float64) (ws : list A) :
  fold_left (fun p w => div p (g w)) ws S754_nan = S754_nan.
Proof. induction ws as [| w ws IH]; cbn; [reflexivity | exact IH]. Qed.

Lemma probability_nan_prior (c : classifier) (ws : list string) (class : string) :
  priorProb c class = S754_nan -> probability c ws class = S754_nan.
Proof.
  intros H. unfold probability; cbv zeta.
  rewrite H, fold_left_mul_nan, fold_left_div_nan. reflexivity.
Qed.

(** X8.  While both sentence sets are empty, as after loading a corpus file
    without a well-formed line, [classify] returns NaN for both classes
    whatever the sentence, and the shell answers negative. *)
Theorem no_sentences_always_negative (mapToLower : string -> string)
    (c : classifier) (sentence : string) :
  sentencesOf c positive = [] ->
  sentencesOf c negative = [] ->
  scoreOf (classify mapToLower c sentence) positive = S754_nan /\
  scoreOf (classify mapToLower c sentence) negative = S754_nan /\
  mainClass (classify mapToLower c sentence) = negative /\
  respond mapToLower c sentence
  = ("> Your text is negative" ++ String newline (String newline EmptyString))%string.
Proof.
  intros Hp Hn.
  destruct (scoreOf_classify mapToLower c sentence) as [Hsp Hsn].
  rewrite probability_nan_prior in Hsp by (apply priorProb_empty; auto).
  rewrite probability_nan_prior in Hsn by (apply priorProb_empty; auto).
  assert (Hm : mainClass (classify mapToLower c sentence) = negative)
    by (unfold mainClass; rewrite Hsp, Hsn; reflexivity).
  repeat split; try assumption.
  unfold respond; cbv zeta. rewrite Hm. reflexivity.
Qed.

Lemma no_sentences_always_negative_witness :
  let f := {| openError := false; scanned := ["no tab"; ""]; scanError := false |} in
  exists c, startup asciiOnly f [] = Returned c /\
    mainClass (classify asciiOnly c "excellent film") = negative.
Proof.
  intros f. exists newClassifier. split; [reflexivity |].
  apply (no_sentences_always_negative asciiOnly newClassifier "excellent film");
    reflexivity.
Defined.

Lemma mul_infinity_not_finite (x : float64) :
  is_finite (mul x (S754_infinity false)) = false.
Proof. destruct x; reflexivity. Qed.

Lemma div_infinity_nan (x : float64) :
  is_finite x = false -> div x (S754_infinity false) = S754_nan.
Proof. destruct x; try discriminate; reflexivity. Qed.

Lemma fold_left_mul_infinity {A : Type} (ws : list A) (p : float64) :
  ws <> [] ->
  is_finite (fold_left (fun p _ => mul p (S754_infinity false)) ws p) = false.
Proof.
  revert p. induction ws as [| w ws IH]; intros p Hne; [congruence |].
  cbn [fold_left]. destruct ws as [| w' ws].
  - apply mul_infinity_not_finite.
  - apply IH. discriminate.
Qed.

Lemma fold_left_div_infinity {A : Type} (ws : list A) (p : float64) :
  ws <> [] -> is_finite p = false ->
  fold_left (fun p _ => div p (S754_infinity false)) ws p = S754_nan.
Proof.
  intros Hne Hp. destruct ws as [| w ws]; [congruence |].
  cbn [fold_left]. rewrite (div_infinity_nan p Hp).
  apply (fold_left_div_nan (fun _ => S754_infinity false)).
Qed.

Lemma probability_empty_table (c : classifier) (ws : list string) (class : string) :
  words c = ∅ -> ws <> [] -> probability c ws class = S754_nan.
Proof.
  intros Hw Hne. unfold probability; cbv zeta.
  assert (Hm : forall p (w : string),
             mul p (div (of_int (classCount c w class + 1))
                        (of_int (wordCount c class + totalDistinctWordCount c)))
             = mul p (S754_infinity false)).
  { intros p w. unfold classCount, wordCount, totalDistinctWordCount.
    rewrite Hw, lookup_empty, map_to_list_empty. reflexivity. }
  assert (Hd : forall p (w : string),
             div p (div (of_int (bothCount c w + 1))
                        (of_int (totalWordCount c + totalDistinctWordCount c)))
             = div p (S754_infinity false)).
  { intros p w. unfold bothCount, totalWordCount, wordCount, totalDistinctWordCount.
    rewrite Hw, lookup_empty, map_to_list_empty. reflexivity. }
  rewrite (fold_left_ext _ _ ws _ Hd), (fold_left_ext _ _ ws _ Hm).
  apply fold_left_div_infinity; [exact Hne |].
  apply fold_left_mul_infinity, Hne.
Qed.

(** X9.  While the frequency table is empty, as after training on
    sentences of stop words only, both smoothing denominators are zero:
    for a sentence with at least one token [classify] returns NaN for both
    classes and the shell answers negative, whatever the sentence sets
    hold. *)
Theorem empty_table_always_negative (mapToLower : string -> string)
    (c : classifier) (sentence : string) :
  words c = ∅ ->
  Tokenizer.tokenize mapToLower sentence <> [] ->
  scoreOf (classify mapToLower c sentence) positive = S754_nan /\
  scoreOf (classify mapToLower c sentence) negative = S754_nan /\
  mainClass (classify mapToLower c sentence) = negative.
Proof.
  intros Hw Hne.
  destruct (scoreOf_classify mapToLower c sentence) as [Hsp Hsn].
  rewrite probability_empty_table in Hsp by assumption.
  rewrite probability_empty_table in Hsn by assumption.
  repeat split; try assumption.
  unfold mainClass. rewrite Hsp, Hsn. reflexivity.
Qed.

Lemma empty_table_always_negative_witness :
  let c := trainIn asciiOnly newClassifier
             [("It is what it is.", positive); ("This was not so.", positive)] in
  length (sentencesOf c positive) = 2%nat /\
  mainClass (classify asciiOnly c "excellent film") = negative.
Proof.
  intros c. split; [reflexivity |].
  apply (empty_table_always_negative asciiOnly c "excellent film").
  - vm_compute. reflexivity.
  - vm_compute. discriminate.
Defined.

(** ** The table after training on two classes *)

Lemma counterOf_insert (m : gmap string Z) (w class class' : string) (v : Z) :
  counterOf {| word := w; counter := <[class := v]> m |} class'
  = if decide (class = class') then v
    else counterOf {| word := w; counter := m |} class'.
Proof.
  unfold counterOf; cbn [counter].
  destruct (decide (class = class')) as [-> | Hne].
  - now rewrite lookup_insert_eq.
  - now rewrite lookup_insert_ne.
Qed.

Lemma positive_ne_negative : positive <> negative.
Proof. discriminate. Qed.

Lemma tableOK_addWord (c : classifier) (w class : string) :
  tableOK c -> class = positive \/ class = negative -> tableOK (addWord c w class).
Proof.
  intros Hc Hclass w' wf'. unfold addWord; cbv zeta; cbn [words].
  set (wf0 := match words c !! w with
              | Some wf => wf
              | None => {| word := w; counter := {[positive := 0; negative := 0]} |}
              end).
  assert (H0 : word wf0 = w /\
               dom (counter wf0) = ({[positive; negative]} : gset string) /\
               0 <= counterOf wf0 positive /\ 0 <= counterOf wf0 negative).
  { subst wf0. destruct (words c !! w) as [wf |] eqn:Hw.
    - destruct (Hc w wf Hw) as (? & ? & ? & ? & ?). auto.
    - cbn [word counter]. split; [reflexivity |]. split.
      + rewrite dom_insert_L, dom_singleton_L. reflexivity.
      + unfold counterOf; cbn [counter]. rewrite !counterOf_initial. lia. }
  destruct H0 as (Hword & Hdom & Hp & Hn).
  destruct (decide (w' = w)) as [-> | Hne].
  - rewrite lookup_insert_eq. intros [= <-]. unfold entryOK; cbn [word counter].
    split; [exact Hword |]. split.
    + rewrite dom_insert_L, Hdom. destruct Hclass as [-> | ->]; set_solver.
    + destruct wf0 as [w0 m0]. cbn [word counter] in *.
      rewrite !counterOf_insert.
      pose proof positive_ne_negative as Hpn.
      unfold counterOf in *; cbn [counter] in *.
      destruct Hclass as [-> | ->]; repeat case_decide; try congruence; lia.
  - rewrite lookup_insert_ne by congruence. apply Hc.
Qed.

Lemma tableOK_addWords (calls : list (string * string)) (c : classifier) :
  twoClasses calls -> tableOK c -> tableOK (addWords c calls).
Proof.
  intros H. revert c. induction H as [| [w class] calls Hcl _ IH]; intros c Hc.
  - exact Hc.
  - apply IH, tableOK_addWord; [exact Hc | exact Hcl].
Qed.

Lemma twoClasses_addWordCalls (mapToLower : string -> string)
    (order : list (string * string)) :
  twoClasses order -> twoClasses (addWordCalls mapToLower order).
Proof.
  unfold twoClasses, addWordCalls.
  induction 1 as [| [sentence class] order Hcl _ IH]; cbn [flat_map].
  - constructor.
  - apply List.Forall_app. split; [| exact IH].
    induction (Tokenizer.tokenize mapToLower sentence) as [| w ws IHw]; cbn;
      constructor; auto.
Qed.

Lemma tableOK_ext (c1 c2 : classifier) :
  words c1 = words c2 -> tableOK c2 -> tableOK c1.
Proof. unfold tableOK. intros ->. auto. Qed.

Lemma tableOK_trainIn (mapToLower : string -> string)
    (order : list (string * string)) (c : classifier) :
  twoClasses order -> tableOK c -> tableOK (trainIn mapToLower c order).
Proof.
  intros Ho Hc. apply (tableOK_ext _ _ (words_trainIn mapToLower order c)).
  apply tableOK_addWords; [apply twoClasses_addWordCalls, Ho | exact Hc].
Qed.

Lemma tableOK_new : tableOK newClassifier.
Proof. intros w wf. cbn. rewrite lookup_empty. discriminate. Qed.

(** X10.  When every class of the corpus is positive or negative, training a
    fresh classifier leaves a table in which every entry is stored under
    its own word, has a counter for exactly these two classes, neither
    negative and one of them positive at least, and no sentence set for any
    other class. *)
Theorem trained_table (mapToLower : string -> string) (order : list (string * string)) :
  twoClasses order ->
  let c := trainIn mapToLower newClassifier order in
  (forall w wf, words c !! w = Some wf ->
     word wf = w /\
     dom (counter wf) = ({[positive; negative]} : gset string) /\
     0 <= counterOf wf positive /\
     0 <= counterOf wf negative /\
     1 <= counterOf wf positive + counterOf wf negative) /\
  (forall class, class <> positive -> class <> negative -> sentencesOf c class = []).
Proof.
  intros Ho c. split.
  - apply (tableOK_trainIn mapToLower order newClassifier Ho tableOK_new).
  - intros class Hp Hn. subst c. rewrite train_sentence_sets_aux.
    unfold sentencesOf at 1; cbn. rewrite lookup_empty. cbn.
    induction Ho as [| [s cl] order Hcl _ IH]; [reflexivity |].
    rewrite filter_cons. cbn [snd] in *.
    destruct (decide (cl = class)) as [-> | _]; [| exact IH].
    destruct Hcl; congruence.
Qed.

Lemma trained_table_witness :
  let c := trainIn asciiOnly newClassifier goodBad in
  (forall w wf, words c !! w = Some wf ->
     word wf = w /\
     dom (counter wf) = ({[positive; negative]} : gset string) /\
     0 <= counterOf wf positive /\
     0 <= counterOf wf negative /\
     1 <= counterOf wf positive + counterOf wf negative) /\
  (forall class, class <> positive -> class <> negative -> sentencesOf c class = []).
Proof.
  apply (trained_table asciiOnly goodBad).
  unfold twoClasses, goodBad.
  constructor; [left; reflexivity |]. constructor; [right; reflexivity |].
  constructor.
Defined.

Lemma total_zeroOne_bounds (l : list (string * wordFrequency)) :
  List.Forall (fun e => entryOK e.1 e.2) l ->
  Z.of_nat (length l)
  <= total (fun wf => zeroOneTransform (counterOf wf positive)) l
     + total (fun wf => zeroOneTransform (counterOf wf negative)) l
  <= 2 * Z.of_nat (length l) /\
  0 <= total (fun wf => counterOf wf positive) l.
Proof.
  induction 1 as [| [k wf] l (_ & _ & Hp & Hn & Hpn) _ IH]; cbn [total foldr length].
  - lia.
  - cbn [snd] in *. unfold total in IH. unfold zeroOneTransform in *.
    destruct (Z.eqb_spec (counterOf wf positive) 0),
      (Z.eqb_spec (counterOf wf negative) 0); lia.
Qed.

Lemma tableOK_entries (c : classifier) :
  tableOK c -> List.Forall (fun e => entryOK e.1 e.2) (map_to_list (words c)).
Proof.
  intros Hc. apply List.Forall_forall. intros [k wf] Hin.
  apply list_elem_of_In, elem_of_map_to_list in Hin. apply (Hc k wf Hin).
Qed.

(** X11.  After training a fresh classifier on a corpus of positive and
    negative sentences, [totalDistinctWordCount] lies between the number of
    tokens in the table and twice that number, [wordCount] is not negative,
    and both smoothing denominators of [probability] are at least 1 as soon
    as the table holds a token. *)
Theorem smoothing_denominators (mapToLower : string -> string)
    (order : list (string * string)) (class : string) :
  twoClasses order ->
  let c := trainIn mapToLower newClassifier order in
  Z.of_nat (size (words c)) <= totalDistinctWordCount c <= 2 * Z.of_nat (size (words c)) /\
  0 <= wordCount c class /\
  (words c <> ∅ ->
   1 <= wordCount c class + totalDistinctWordCount c /\
   1 <= totalWordCount c + totalDistinctWordCount c).
Proof.
  intros Ho c.
  pose proof (tableOK_entries c (tableOK_trainIn mapToLower order newClassifier Ho tableOK_new))
    as He.
  destruct (total_zeroOne_bounds _ He) as [Hd Hw].
  rewrite length_map_to_list in Hd.
  assert (Hwc : forall class', wordCount c class' = total (fun wf => counterOf wf positive)
                                                  (map_to_list (words c)))
    by (intros; apply wordCountIn_total).
  unfold totalWordCount, totalDistinctWordCount.
  rewrite totalDistinctWordCountIn_total, !Hwc.
  split; [exact Hd |]. split; [exact Hw |].
  intros Hne. apply map_size_non_empty_iff in Hne. lia.
Qed.

Lemma smoothing_denominators_witness :
  2 <= totalDistinctWordCount (trainIn asciiOnly newClassifier goodBad) <= 4 /\
  1 <= wordCount (trainIn asciiOnly newClassifier goodBad) negative
       + totalDistinctWordCount (trainIn asciiOnly newClassifier goodBad).
Proof.
  assert (Ho : twoClasses goodBad).
  { unfold twoClasses, goodBad.
    constructor; [left; reflexivity |]. constructor; [right; reflexivity |].
    constructor. }
  destruct (smoothing_denominators asciiOnly goodBad negative Ho) as (Hd & _ & Hne).
  assert (Hsize : size (words (trainIn asciiOnly newClassifier goodBad)) = 2%nat)
    by (vm_compute; reflexivity).
  rewrite Hsize in Hd. split; [exact Hd |].
  apply Hne. intros Hempty. apply (f_equal size) in Hempty.
  rewrite Hsize, map_size_empty in Hempty. discriminate Hempty.
Defined.

(** ** The start of main *)

Lemma dataset_returned (f : file) (d : gmap string string) :
  dataset f = Returned d -> d = fold_left datasetLine (scanned f) ∅.
Proof.
  unfold dataset. destruct (openError f); [discriminate |]. cbv zeta.
  destruct (scanError f); [discriminate |]. intros [= <-]. reflexivity.
Qed.

Lemma twoClasses_visits (f : file) (d : gmap string string)
    (order : list (string * string)) :
  dataset f = Returned d -> visits d order -> twoClasses order.
Proof.
  intros Hd Hv. apply dataset_returned in Hd. unfold twoClasses.
  apply List.Forall_forall. intros [s class] Hin. cbn [snd].
  apply list_elem_of_In in Hin. unfold visits in Hv. rewrite Hv in Hin.
  apply elem_of_map_to_list in Hin. subst d.
  apply (fold_datasetLine_classes (scanned f) ∅) with (s := s); [| exact Hin].
  intros s' class'. rewrite lookup_empty. discriminate.
Qed.

Lemma labelled_twoClasses (order : list (string * string)) :
  twoClasses order ->
  (labelled order positive + labelled order negative)%nat = length order.
Proof.
  unfold labelled.
  induction 1 as [| [s class] order Hcl _ IH]; [reflexivity |].
  rewrite !filter_cons. cbn [snd] in *. pose proof positive_ne_negative.
  destruct Hcl as [-> | ->]; repeat case_decide; try congruence; cbn [length]; lia.
Qed.

(** X12.  When the corpus file can be read, [main] starts its loop with a
    classifier whose two sentence sets together hold as many sentences as
    the corpus has, that is one for every distinct sentence of the
    well-formed lines; it has no other sentence set, and every entry of
    its table has a counter for exactly the two classes. *)
Theorem startup_classifier (mapToLower : string -> string) (f : file)
    (d : gmap string string) (order : list (string * string)) :
  dataset f = Returned d ->
  visits d order ->
  let c := trainIn mapToLower newClassifier order in
  startup mapToLower f order = Returned c /\
  (length (sentencesOf c positive) + length (sentencesOf c negative))%nat = size d /\
  (forall class, sentencesOf c class <> [] -> class = positive \/ class = negative) /\
  (forall w wf, words c !! w = Some wf ->
     dom (counter wf) = ({[positive; negative]} : gset string)).
Proof.
  intros Hd Hv c. pose proof (twoClasses_visits f d order Hd Hv) as Ho.
  split; [unfold startup; rewrite Hd; reflexivity |]. split; [| split].
  - subst c. rewrite !length_sentencesOf_trainIn.
    unfold sentencesOf; cbn. rewrite !lookup_empty. cbn.
    rewrite (labelled_twoClasses order Ho).
    unfold visits in Hv. rewrite Hv. apply length_map_to_list.
  - intros class Hne.
    destruct (decide (class = positive)) as [| Hp]; [auto |].
    destruct (decide (class = negative)) as [| Hn]; [auto |].
    exfalso. apply Hne. subst c. rewrite train_sentence_sets_aux.
    unfold sentencesOf at 1; cbn. rewrite lookup_empty. cbn.
    clear Hv Hne. induction Ho as [| [s cl] order Hcl _ IH]; [reflexivity |].
    rewrite filter_cons. cbn [snd] in *.
    destruct (decide (cl = class)) as [-> | _]; [| exact IH].
    destruct Hcl; congruence.
  - intros w wf Hw.
    apply (tableOK_trainIn mapToLower order newClassifier Ho tableOK_new w wf Hw).
Qed.

Lemma startup_classifier_witness :
  let tabbed a b := (a ++ String tab b)%string in
  let f := {| openError := false;
              scanned := [tabbed "good good good" "1"; "no tab here";
                          tabbed "bad bad" "0"; tabbed "bad bad" "0"];
              scanError := false |} in
  let c := trainIn asciiOnly newClassifier goodBad in
  startup asciiOnly f goodBad = Returned c /\
  (length (sentencesOf c positive) + length (sentencesOf c negative))%nat = 2%nat.
Proof.
  intros tabbed f c.
  destruct (startup_classifier asciiOnly f (list_to_map goodBad) goodBad)
    as (Hs & Hl & _).
  - vm_compute. reflexivity.
  - unfold visits. vm_compute map_to_list.
    first [reflexivity | apply Permutation_swap].
  - split; [exact Hs |]. etransitivity; [exact Hl |]. vm_compute. reflexivity.
Defined.

(** ** More on the tokenizer *)

Lemma tokenByte_lower_or_digit (c : ascii) :
  tokenByte c = true -> isLower c || isDigit c = true.
Proof. by_bytes c. Qed.

Lemma words_addWords_key (calls : list (string * string)) (c : classifier) (w : string) :
  is_Some (words (addWords c calls) !! w) ->
  is_Some (words c !! w) \/ In w calls.*1.
Proof.
  revert c. induction calls as [| [w0 class0] calls IH]; intros c H.
  - left. exact H.
  - change (addWords c ((w0, class0) :: calls))
      with (addWords (addWord c w0 class0) calls) in H.
    destruct (IH _ H) as [H1 | H1]; [| right; right; exact H1].
    unfold addWord in H1; cbn [words] in H1.
    apply lookup_insert_is_Some in H1 as [-> | [_ H1]].
    + right. left. reflexivity.
    + left. exact H1.
Qed.

Lemma addWordCalls_tokens (mapToLower : string -> string)
    (order : list (string * string)) (w : string) :
  In w (addWordCalls mapToLower order).*1 ->
  exists sentence, In w (Tokenizer.tokenize mapToLower sentence).
Proof.
  unfold addWordCalls.
  induction order as [| [sentence class] order IH]; cbn [flat_map]; [intros [] |].
  rewrite fmap_app. intros [H | H]%in_app_or; [| exact (IH H)].
  exists sentence.
  induction (Tokenizer.tokenize mapToLower sentence) as [| t ts IHt]; [destruct H |].
  destruct H as [<- | H]; [left; reflexivity | right; exact (IHt H)].
Qed.

(** X13.  Provided the Unicode path of [strings.ToLower] returns no
    upper-case ASCII letter, every token that [tokenize] returns is not
    empty, is not a stop word and consists of lower-case ASCII letters and
    ASCII digits; so does every key of the table of a classifier that was
    trained from a fresh one. *)
Theorem tokens_wellformed (mapToLower : string -> string) :
  (forall x, allBytes notUpper (mapToLower x) = true) ->
  let wellformed w :=
    w <> EmptyString /\ isStopWord w = false /\
    allBytes (fun c => isLower c || isDigit c) w = true in
  (forall s, List.Forall wellformed (Tokenizer.tokenize mapToLower s)) /\
  (forall order w,
     is_Some (words (trainIn mapToLower newClassifier order) !! w) -> wellformed w).
Proof.
  intros H wellformed.
  assert (Ht : forall s, List.Forall wellformed (Tokenizer.tokenize mapToLower s)).
  { intros s. eapply List.Forall_impl; [| apply (tokenize_isToken mapToLower s H)].
    intros w (Hb & Hne & Hstop). repeat split; try assumption.
    revert Hb. apply allBytes_impl, tokenByte_lower_or_digit. }
  split; [exact Ht |]. intros order w Hw.
  rewrite words_trainIn in Hw.
  apply words_addWords_key in Hw as [Hw | Hw].
  - cbn in Hw. rewrite lookup_empty in Hw. destruct Hw; discriminate.
  - apply addWordCalls_tokens in Hw as [sentence Hin].
    pose proof (Ht sentence) as Hall. rewrite List.Forall_forall in Hall.
    apply Hall, Hin.
Qed.

Lemma tokens_wellformed_witness :
  List.Forall
    (fun w => w <> EmptyString /\ isStopWord w = false /\
              allBytes (fun c => isLower c || isDigit c) w = true)
    (Tokenizer.tokenize asciiOnly "Room 101 isn't THAT bad...") /\
  Tokenizer.tokenize asciiOnly "Room 101 isn't THAT bad..."
  = ["room"; "101"; "isnt"; "bad"].
Proof.
  split.
  - apply (proj1 (tokens_wellformed asciiOnly lowerASCII_notUpper)).
  - vm_compute. reflexivity.
Defined.

Lemma isASCII_append (a b : string) :
  isASCII (a ++ b)%string = isASCII a && isASCII b.
Proof. rewrite !isASCII_allBytes. apply allBytes_append. Qed.

Lemma lowerASCII_append (a b : string) :
  lowerASCII (a ++ b)%string = (lowerASCII a ++ lowerASCII b)%string.
Proof.
  induction a as [| c a IH]; [reflexivity |].
  rewrite string_append_cons. cbn [lowerASCII]. rewrite IH. reflexivity.
Qed.

Lemma replaceAll_append (a b : string) :
  replaceAll (a ++ b)%string = (replaceAll a ++ replaceAll b)%string.
Proof.
  induction a as [| c a IH]; [reflexivity |].
  rewrite string_append_cons. cbn [replaceAll]. rewrite IH.
  destruct (inClass c); reflexivity.
Qed.

Lemma inClass_lowerByte (c : ascii) : inClass (lowerByte c) = inClass c.
Proof. destruct c as [[] [] [] [] [] [] [] []]; reflexivity. Qed.

Lemma replaceAll_lowerASCII_other (p : string) :
  allBytes (fun c => negb (inClass c)) p = true ->
  replaceAll (lowerASCII p) = EmptyString.
Proof.
  induction p as [| c p IH]; [reflexivity |]. cbn [allBytes lowerASCII replaceAll].
  intros [Hc Hp]%andb_true_iff. rewrite inClass_lowerByte.
  destruct (inClass c); [discriminate | exact (IH Hp)].
Qed.

(** X14.  In an ASCII sentence, bytes that are no letter, digit or space
    (punctuation, tabs, line ends) are deleted before the sentence is split:
    they change no token, and the words on both sides of them are joined. *)
Theorem tokenize_ignores_other_bytes (mapToLower : string -> string) (a p b : string) :
  isASCII a = true -> isASCII p = true -> isASCII b = true ->
  allBytes (fun c => negb (inClass c)) p = true ->
  Tokenizer.tokenize mapToLower (a ++ p ++ b)%string
  = Tokenizer.tokenize mapToLower (a ++ b)%string.
Proof.
  intros Ha Hp Hb Hother.
  unfold Tokenizer.tokenize, clenup, ToLower; cbv zeta.
  rewrite !isASCII_append, Ha, Hp, Hb. cbn [andb].
  rewrite !lowerASCII_append, !replaceAll_append.
  rewrite (replaceAll_lowerASCII_other p Hother). reflexivity.
Qed.

Lemma tokenize_ignores_other_bytes_witness :
  Tokenizer.tokenize asciiOnly ("good" ++ String "," (String tab EmptyString) ++ "food")%string
  = Tokenizer.tokenize asciiOnly ("good" ++ "food")%string /\
  Tokenizer.tokenize asciiOnly ("good" ++ "food")%string = ["goodfood"] /\
  Tokenizer.tokenize asciiOnly ("good food" ++ String newline EmptyString ++ "")%string
  = Tokenizer.tokenize asciiOnly ("good food" ++ "")%string.
Proof.
  split; [| split].
  - apply (tokenize_ignores_other_bytes asciiOnly "good"
             (String "," (String tab EmptyString)) "food"); reflexivity.
  - vm_compute. reflexivity.
  - apply (tokenize_ignores_other_bytes asciiOnly "good food"
             (String newline EmptyString) ""); reflexivity.
Defined.

Lemma fieldsFrom_allBytes (p : ascii -> bool) (s : string) (cur : option string) :
  allBytes p s = true ->
  (forall f, cur = Some f -> allBytes p f = true) ->
  List.Forall (fun w => allBytes p w = true) (fieldsFrom cur s).
Proof.
  revert cur. induction s as [| c s IH]; intros cur Hs Hcur; cbn [fieldsFrom].
  - destruct cur as [f |]; constructor; auto.
  - cbn in Hs. apply andb_true_iff in Hs as [Hc Hs].
    destruct (asciiSpace c).
    + destruct cur as [f |].
      * constructor; [auto |]. apply IH; [exact Hs | discriminate].
      * apply IH; [exact Hs | discriminate].
    + destruct cur as [f |]; apply IH; try exact Hs; intros f' [= <-].
      * rewrite allBytes_snoc, (Hcur f eq_refl), Hc. reflexivity.
      * cbn. rewrite Hc. reflexivity.
Qed.

Lemma replaceAll_inClass (s : string) : allBytes inClass (replaceAll s) = true.
Proof.
  induction s as [| c s IH]; cbn [replaceAll]; [reflexivity |].
  destruct (inClass c) eqn:Hc; [| exact IH]. cbn. rewrite Hc. exact IH.
Qed.

(** X15.  The fourteen stop words with an apostrophe never match: no field
    that [tokenize] tests against the stop words holds an apostrophe, since
    [clenup] has deleted it before. *)
Theorem contractions_never_match (mapToLower : string -> string) (s : string) :
  List.Forall
    (fun sw => isStopWord sw = true /\
               ~ In sw (Fields (clenup mapToLower s)))
    contractions.
Proof.
  assert (Hf : List.Forall (fun w => allBytes inClass w = true)
                 (Fields (clenup mapToLower s))).
  { apply fieldsFrom_allBytes; [apply replaceAll_inClass | discriminate]. }
  rewrite List.Forall_forall in Hf.
  unfold contractions.
  repeat (apply List.Forall_cons;
          [split; [vm_compute; reflexivity
                  | intros Hin; apply Hf in Hin; vm_compute in Hin; discriminate] |]).
  apply List.Forall_nil.
Qed.
